(** * log_utils: the file logger, its registry and the dual-write dispatch

    A shallow embedding of [include/log_utils/log_utils.h]: the formatting
    helpers ([getFileName], [getCurrentTimestamp], [logLevelToString]), the
    [FileLogger] class, the [LogManager] singleton and the free function
    [writeLog], followed by the properties the specification states about
    them.

    The embedding is sequential: [std::mutex] and [std::lock_guard] are left
    out, every member function runs to completion before the next one starts.
    Everything outside the process (environment variables, the file system,
    the clock, the time zone, the standard streams) is gathered in a [World]
    record that the operations read and update. *)

From Stdlib Require Import ZArith Ascii String List Lia.
From Stdlib Require Import Numbers.DecimalString.
From stdpp Require Import gmap strings sorting.

Local Open Scope Z_scope.

(** ** Log levels *)

Module Levels.

(** [enum class LogLevel { DEBUG = 0, INFO = 1, WARN = 2, ERROR = 3 }]. *)
Inductive LogLevel : Set := DEBUG | INFO | WARN | ERROR.

(** The enumerator values; [level < min_level_] compares them. *)
Definition LogLevel_value (level : LogLevel) : Z :=
  match level with
  | DEBUG => 0
  | INFO => 1
  | WARN => 2
  | ERROR => 3
  end.

Definition level_lt (a b : LogLevel) : bool :=
  LogLevel_value a <? LogLevel_value b.

(** The [switch] of [logLevelToString], taken on the enumerator value so
    that the [default] arm keeps its place. *)
Definition logLevelToString (level : LogLevel) : string :=
  match LogLevel_value level with
  | 0 => "DEBUG"
  | 1 => "INFO"
  | 2 => "WARN"
  | 3 => "ERROR"
  | _ => "UNKNOWN"
  end.

End Levels.
Export Levels.

(** ** Strings *)

Module Text.

(** Membership of a character in a character set given as a string. *)
Fixpoint char_in (c : ascii) (set : string) : bool :=
  match set with
  | EmptyString => false
  | String d set' => Ascii.eqb c d || char_in c set'
  end.

(** [s.find_last_of(set)]: the index of the last character of [s] that
    belongs to [set]; [None] stands for [std::string::npos]. *)
Fixpoint find_last_of (s set : string) : option nat :=
  match s with
  | EmptyString => None
  | String c s' =>
      match find_last_of s' set with
      | Some pos => Some (S pos)
      | None => if char_in c set then Some 0%nat else None
      end
  end.

(** [s.substr(pos)] for [pos <= s.size()]: the characters from [pos] on. *)
Fixpoint substr (s : string) (pos : nat) : string :=
  match pos, s with
  | O, _ => s
  | S pos', String _ s' => substr s' pos'
  | S _, EmptyString => EmptyString
  end.

(** The separator set of [getFileName], the C++ literal ["/\\"]. *)
Definition separators : string :=
  String "/" (String (ascii_of_nat 92) EmptyString).

Definition getFileName (path : string) : string :=
  match find_last_of path separators with
  | None => path
  | Some pos => substr path (pos + 1)
  end.

(** Whether a string contains one of the two separators. *)
Fixpoint has_separator (s : string) : bool :=
  match s with
  | EmptyString => false
  | String c s' => char_in c separators || has_separator s'
  end.

(** [operator<<] on an integer: decimal digits, a minus sign if negative. *)
Definition show_Z (n : Z) : string := NilZero.string_of_int (Z.to_int n).

(** [std::setfill(c)] with [std::setw(w)] under the default (right)
    adjustment: fill characters go in front of the text. *)
Definition pad_left (w : nat) (c : ascii) (s : string) : string :=
  String.concat "" (repeat (String c "") (w - String.length s)) +:+ s.

Definition newline : string := String (ascii_of_nat 10) EmptyString.

End Text.
Export Text.

(** ** Timestamps *)

Module Clock.

(** The fields of [struct tm] that the format string reads. *)
Record tm : Set := {
  tm_year : Z;   (* years since 1900 *)
  tm_mon : Z;    (* 0 .. 11 *)
  tm_mday : Z;   (* 1 .. 31 *)
  tm_hour : Z;   (* 0 .. 23 *)
  tm_min : Z;    (* 0 .. 59 *)
  tm_sec : Z     (* 0 .. 60 *)
}.

(** [std::put_time(t, "%Y-%m-%d %H:%M:%S")]: the year as a decimal number,
    the other fields as two-digit decimal numbers. *)
Definition put_time (t : tm) : string :=
  show_Z (tm_year t + 1900) +:+ "-" +:+
  pad_left 2 "0" (show_Z (tm_mon t + 1)) +:+ "-" +:+
  pad_left 2 "0" (show_Z (tm_mday t)) +:+ " " +:+
  pad_left 2 "0" (show_Z (tm_hour t)) +:+ ":" +:+
  pad_left 2 "0" (show_Z (tm_min t)) +:+ ":" +:+
  pad_left 2 "0" (show_Z (tm_sec t)).

(** [system_clock::time_point] is a signed 64-bit count of nanoseconds
    since the epoch: the readings of the clock lie between
    [system_clock_min] and [system_clock_max], the latter being
    2262-04-11 23:47:16.854775807 UTC.  An instant outside that span has no
    count of its own; the count kept for a later instant has wrapped around
    and is negative.  [duration_cast] truncates toward zero ([Z.quot]) and
    [%] keeps the sign of the dividend ([Z.rem]). *)
Definition system_clock_min : Z := -9223372036854775808.

Definition system_clock_max : Z := 9223372036854775807.

Definition to_time_t (now : Z) : Z := Z.quot now 1000000000.

Definition milliseconds_part (now : Z) : Z := Z.rem (Z.quot now 1000000) 1000.

(** The body of [getCurrentTimestamp] once [now] has been read;
    [localtime] is the C library's conversion for the current time zone. *)
Definition format_timestamp (localtime : Z -> tm) (now : Z) : string :=
  put_time (localtime (to_time_t now)) +:+ "." +:+
  pad_left 3 "0" (show_Z (milliseconds_part now)).

Definition is_digit (c : ascii) : bool :=
  (48 <=? nat_of_ascii c)%nat && (nat_of_ascii c <=? 57)%nat.

Definition digit_value (c : ascii) : Z := Z.of_nat (nat_of_ascii c) - 48.

(** The value of a string of decimal digits, most significant first. *)
Definition decimal_value (s : string) : Z :=
  fold_left (fun acc c => 10 * acc + digit_value c) (list_ascii_of_string s) 0.

(** [s] is [n] written with exactly [w] decimal digits. *)
Definition fixed_digits (w : nat) (s : string) (n : Z) : bool :=
  (String.length s =? w)%nat && forallb is_digit (list_ascii_of_string s)
  && (decimal_value s =? n).

(** The shape [YYYY-MM-DD HH:MM:SS.mmm]: 23 characters, digits and
    separators at fixed places. *)
Definition timestamp_form (s : string) : bool :=
  match list_ascii_of_string s with
  | [y1; y2; y3; y4; a; m1; m2; b; d1; d2; c; h1; h2; d; n1; n2; e; s1; s2;
     f; f1; f2; f3] =>
      forallb is_digit
        [y1; y2; y3; y4; m1; m2; d1; d2; h1; h2; n1; n2; s1; s2; f1; f2; f3]
      && Ascii.eqb a "-" && Ascii.eqb b "-" && Ascii.eqb c " "
      && Ascii.eqb d ":" && Ascii.eqb e ":" && Ascii.eqb f "."
  | _ => false
  end.

(** The ranges the C standard gives to the fields of a [struct tm], with a
    four-digit year. *)
Definition tm_in_range (t : tm) : Prop :=
  1000 <= tm_year t + 1900 <= 9999 /\ 0 <= tm_mon t <= 11 /\
  1 <= tm_mday t <= 31 /\ 0 <= tm_hour t <= 23 /\
  0 <= tm_min t <= 59 /\ 0 <= tm_sec t <= 60.

End Clock.
Export Clock.

(** ** The world outside the process *)

Module Env.

(** What the process does to its surroundings, most recent first. *)
Inductive Event : Type :=
  | EvSystem (command : string)            (* [system(command)] *)
  | EvOpen (path : string) (ok : bool)     (* [ofstream::open(path, ios::app)] *)
  | EvCerr (line : string)                 (* one line on [std::cerr] *)
  | EvCout (line : string).                (* one line on [std::cout] *)

(** Files are identified by their path string.  [can_open] is the file
    system's answer to an append-mode open of a path; the surroundings may
    change it between two calls of the library. *)
Record World : Type := {
  getenv : string -> option string;
  can_open : string -> bool;
  files : gmap string string;
  clock : nat -> Z;          (* the successive answers of [system_clock::now],
                                each the 64-bit count of the time point *)
  clock_reads : nat;         (* how many have been consumed *)
  localtime : Z -> tm;
  events : list Event
}.

Definition emit (e : Event) (w : World) : World :=
  {| getenv := getenv w; can_open := can_open w; files := files w;
     clock := clock w; clock_reads := clock_reads w;
     localtime := localtime w; events := e :: events w |}.

Definition set_files (f : gmap string string) (w : World) : World :=
  {| getenv := getenv w; can_open := can_open w; files := f;
     clock := clock w; clock_reads := clock_reads w;
     localtime := localtime w; events := events w |}.

Definition tick (w : World) : World :=
  {| getenv := getenv w; can_open := can_open w; files := files w;
     clock := clock w; clock_reads := S (clock_reads w);
     localtime := localtime w; events := events w |}.

(** The surroundings change which paths can be opened. *)
Definition reopen (openable : string -> bool) (w : World) : World :=
  {| getenv := getenv w; can_open := openable; files := files w;
     clock := clock w; clock_reads := clock_reads w;
     localtime := localtime w; events := events w |}.

(** The bytes of a file; a file that does not exist has none. *)
Definition content (w : World) (path : string) : string :=
  default "" (files w !! path).

(** An append-mode open: recorded, and creating the file when it succeeds
    on a path that has none. *)
Definition open_append (path : string) (w : World) : bool * World :=
  let ok := can_open w path in
  let w' := emit (EvOpen path ok) w in
  (ok, if ok then set_files (<[path := content w path]> (files w)) w' else w').

(** A write followed by a flush on a stream opened in append mode. *)
Definition append_file (path text : string) (w : World) : World :=
  set_files (<[path := content w path +:+ text]> (files w)) w.

(** [getCurrentTimestamp]: one reading of the clock, formatted. *)
Definition getCurrentTimestamp (w : World) : string * World :=
  (format_timestamp (localtime w) (clock w (clock_reads w)), tick w).

End Env.
Export Env.

(** ** Objects of the process *)

Module Process.

(** A [FileLogger]: its path, whether its stream is open
    ([log_file_.is_open()]) and its minimum level. *)
Record FileLogger : Set := {
  log_file_path_ : string;
  log_file_ : bool;
  min_level_ : LogLevel
}.

(** A [std::shared_ptr<FileLogger>] is the identity of the object it points
    to: the rank of the object among all the [FileLogger]s the process has
    constructed.  [nullptr] is [None]. *)
Definition ptr : Set := nat.

Record LogManager : Type := {
  loggers_ : gmap string ptr;
  summary_logger_ : option ptr;
  base_log_dir_ : string;
  initialized_ : bool
}.

(** The process: the live [FileLogger] objects, the number of those
    constructed so far, the function-local static of [getInstance] (absent
    until the first call) and the world around. *)
Record St : Type := {
  world : World;
  heap : gmap ptr FileLogger;
  constructed : nat;
  instance : option LogManager
}.

Definition process_start (w : World) : St :=
  {| world := w; heap := ∅; constructed := 0%nat; instance := None |}.

Definition set_world (w : World) (st : St) : St :=
  {| world := w; heap := heap st; constructed := constructed st;
     instance := instance st |}.

Definition set_instance (mgr : LogManager) (st : St) : St :=
  {| world := world st; heap := heap st; constructed := constructed st;
     instance := Some mgr |}.

(** Computations on the process.  [None] is undefined behaviour: a member
    call through a null or dangling pointer. *)
Definition M (A : Type) : Type := St -> option (A * St).

Definition ret {A} (a : A) : M A := fun st => Some (a, st).

Definition bind {A B} (m : M A) (k : A -> M B) : M B :=
  fun st => match m st with
            | Some (a, st') => k a st'
            | None => None
            end.

Notation "x <- m ;; k" := (bind m (fun x => k))
  (at level 62, m at next level, right associativity).
Notation "m ;;; k" := (bind m (fun _ => k))
  (at level 62, right associativity).

Definition get_world : M World := fun st => Some (world st, st).

Definition update_world (f : World -> World) : M unit :=
  fun st => Some (tt, set_world (f (world st)) st).

Definition put_instance (mgr : LogManager) : M unit :=
  fun st => Some (tt, set_instance mgr st).

(** [std::make_shared<FileLogger>]: a new object with the next identity. *)
Definition alloc (fl : FileLogger) : M ptr :=
  fun st => Some (constructed st,
    {| world := world st; heap := <[constructed st := fl]> (heap st);
       constructed := S (constructed st); instance := instance st |}).

(** The last [shared_ptr] to an object goes away. *)
Definition release (p : ptr) : M unit :=
  fun st => Some (tt,
    {| world := world st; heap := delete p (heap st);
       constructed := constructed st; instance := instance st |}).

Definition deref (p : ptr) : M FileLogger :=
  fun st => match heap st !! p with
            | Some fl => Some (fl, st)
            | None => None
            end.

(** The state a computation leaves, the state it started from if it has
    none. *)
Definition after {A} (m : M A) (st : St) : St :=
  match m st with
  | Some (_, st') => st'
  | None => st
  end.

End Process.
Export Process.

(** ** FileLogger *)

Module Logger.

(** The constructor: open the path for appending, complain on [std::cerr]
    if that fails.  It is reached through [std::make_shared] only, so the
    allocation is part of it. *)
Definition FileLogger_new (file_path : string) (min_level : LogLevel) : M ptr :=
  w <- get_world ;;
  let '(ok, w') := open_append file_path w in
  update_world (fun _ =>
    if ok then w'
    else emit (EvCerr ("Error: Cannot open log file: " +:+ file_path)) w') ;;;
  alloc {| log_file_path_ := file_path; log_file_ := ok;
           min_level_ := min_level |}.

Definition isOpen (this : ptr) : M bool :=
  fl <- deref this ;; ret (log_file_ fl).

Definition getFilePath (this : ptr) : M string :=
  fl <- deref this ;; ret (log_file_path_ fl).

(** The text [FileLogger::log] sends to its stream before [std::endl]. *)
Definition format_record (timestamp : string) (level : LogLevel)
    (module file : string) (line : Z) (message : string) : string :=
  "[" +:+ timestamp +:+ "] " +:+
  "[" +:+ logLevelToString level +:+ "] " +:+
  "[" +:+ module +:+ "] " +:+
  getFileName file +:+ ":" +:+ show_Z line +:+ " - " +:+
  message.

Definition log (this : ptr) (level : LogLevel) (module file : string)
    (line : Z) (message : string) : M unit :=
  fl <- deref this ;;
  if level_lt level (min_level_ fl) || negb (log_file_ fl) then ret tt
  else
    update_world (fun w =>
      let '(timestamp, w') := getCurrentTimestamp w in
      append_file (log_file_path_ fl)
        (format_record timestamp level module file line message +:+ newline)
        w').

End Logger.
Export Logger.

(** ** LogManager *)

Module Manager.

Definition summary_file_name : string := "ALL_LOGS_SUMMARY".

(** The directory chosen by [initializeLogDirectory]. *)
Definition choose_log_dir (env : string -> option string) : string :=
  match env "LOG_DIR" with
  | Some log_dir_env => log_dir_env
  | None =>
      match env "ROS_WORKSPACE" with
      | Some workspace => workspace +:+ "/logs/current"
      | None => "/tmp/two_stage_int_logs"
      end
  end.

Definition initializeLogDirectory (this : LogManager) : M LogManager :=
  w <- get_world ;;
  let base_log_dir := choose_log_dir (getenv w) in
  update_world (emit (EvSystem ("mkdir -p " +:+ base_log_dir))) ;;;
  summary <- FileLogger_new (base_log_dir +:+ "/ALL_LOGS_SUMMARY.log") DEBUG ;;
  ret {| loggers_ := loggers_ this; summary_logger_ := Some summary;
         base_log_dir_ := base_log_dir; initialized_ := true |}.

(** The private constructor [LogManager() : initialized_(false)]. *)
Definition LogManager_new : M LogManager :=
  initializeLogDirectory
    {| loggers_ := ∅; summary_logger_ := None; base_log_dir_ := "";
       initialized_ := false |}.

(** [LogManager::getInstance]: the static is constructed by the first call
    and found in [instance] from then on.  The constructor is private, so
    the manager is only ever reached through [getInstance]; it is returned
    by reference, which is why each member function below reads the manager
    from the state at the moment it runs (through [getInstance], which costs
    nothing once the static exists) and not from a copy taken earlier. *)
Definition getInstance : M LogManager :=
  fun st =>
    match instance st with
    | Some mgr => Some (mgr, st)
    | None =>
        match LogManager_new st with
        | Some (mgr, st') => Some (mgr, set_instance mgr st')
        | None => None
        end
    end.

Definition module_log_path (base_log_dir module_name : string) : string :=
  base_log_dir +:+ "/" +:+ module_name +:+ ".log".

(** [LogManager::getInstance().getLogger(module_name, min_level)]. *)
Definition getLogger (module_name : string) (min_level : LogLevel)
  : M (option ptr) :=
  this <- getInstance ;;
  match loggers_ this !! module_name with
  | Some logger => ret (Some logger)
  | None =>
      logger <- FileLogger_new
                  (module_log_path (base_log_dir_ this) module_name)
                  min_level ;;
      open <- isOpen logger ;;
      if open then
        put_instance
          {| loggers_ := <[module_name := logger]> (loggers_ this);
             summary_logger_ := summary_logger_ this;
             base_log_dir_ := base_log_dir_ this;
             initialized_ := initialized_ this |} ;;;
        ret (Some logger)
      else
        release logger ;;; ret None
  end.

Definition getSummaryLogger : M (option ptr) :=
  this <- getInstance ;; ret (summary_logger_ this).

Definition getLogDirectory : M string :=
  this <- getInstance ;; ret (base_log_dir_ this).

(** [std::map] iterates in ascending key order. *)
Definition key_le (a b : string * ptr) : Prop :=
  String.leb (fst a) (fst b) = true.

#[local] Instance key_le_dec : RelDecision key_le :=
  fun a b => decide (String.leb (fst a) (fst b) = true).

Definition in_key_order (m : gmap string ptr) : list (string * ptr) :=
  merge_sort key_le (map_to_list m).

Fixpoint report_paths (loggers : list (string * ptr)) : M unit :=
  match loggers with
  | [] => ret tt
  | (_, logger) :: rest =>
      path <- getFilePath logger ;;
      update_world (emit (EvCout ("  - " +:+ path))) ;;;
      report_paths rest
  end.

Definition exportLogs : M unit :=
  this <- getInstance ;;
  update_world (emit (EvCout ("日志已导出到: " +:+ base_log_dir_ this))) ;;;
  match summary_logger_ this with
  | Some summary =>
      path <- getFilePath summary ;;
      update_world (emit (EvCout ("  * 汇总日志: " +:+ path)))
  | None => ret tt
  end ;;;
  report_paths (in_key_order (loggers_ this)).

End Manager.
Export Manager.

(** ** Dispatch *)

Module Dispatch.

Definition writeLog (module : string) (level : LogLevel) (file : string)
    (line : Z) (message : string) : M unit :=
  logger <- getLogger module DEBUG ;;
  match logger with
  | Some l => log l level module file line message
  | None => ret tt
  end ;;;
  summary_logger <- getSummaryLogger ;;
  match summary_logger with
  | Some l => log l level module file line message
  | None => ret tt
  end.

End Dispatch.
Export Dispatch.

(** ** Histories of the process *)

Module History.

(** What the application can ask of the library. *)
Inductive Call : Type :=
  | CallGetLogger (module_name : string) (min_level : LogLevel)
  | CallWriteLog (module : string) (level : LogLevel) (file : string)
      (line : Z) (message : string)
  | CallExportLogs
  | CallGetLogDirectory.

Definition run_call (c : Call) : M unit :=
  match c with
  | CallGetLogger module_name min_level =>
      getLogger module_name min_level ;;; ret tt
  | CallWriteLog module level file line message =>
      writeLog module level file line message
  | CallExportLogs => exportLogs
  | CallGetLogDirectory => getLogDirectory ;;; ret tt
  end.

(** One step of a history: the surroundings change the world, or the
    application makes a call that returns. *)
Inductive step : St -> St -> Prop :=
  | step_world st w : step st (set_world w st)
  | step_call st c st' : run_call c st = Some (tt, st') -> step st st'.

Inductive steps : St -> St -> Prop :=
  | steps_refl st : steps st st
  | steps_more st1 st2 st3 : steps st1 st2 -> step st2 st3 -> steps st1 st3.

(** The states a process can be in. *)
Definition reachable (st : St) : Prop := exists w, steps (process_start w) st.

(** The logger registered for a module, the summary logger, and the
    directory, as the manager has them (if it has been constructed). *)
Definition registered (st : St) (module_name : string) : option ptr :=
  match instance st with
  | Some mgr => loggers_ mgr !! module_name
  | None => None
  end.

Definition module_logger (st : St) (module_name : string) : option FileLogger :=
  match registered st module_name with
  | Some p => heap st !! p
  | None => None
  end.

Definition summary_logger (st : St) : option FileLogger :=
  match instance st with
  | Some mgr =>
      match summary_logger_ mgr with
      | Some p => heap st !! p
      | None => None
      end
  | None => None
  end.

(** The world a [FileLogger] constructor leaves. *)
Definition world_after_new (file_path : string) (w : World) : World :=
  let w' := snd (open_append file_path w) in
  if can_open w file_path then w'
  else emit (EvCerr ("Error: Cannot open log file: " +:+ file_path)) w'.

(** The world an accepted [FileLogger::log] leaves. *)
Definition world_after_log (fl : FileLogger) (level : LogLevel)
    (module file : string) (line : Z) (message : string) (w : World) : World :=
  append_file (log_file_path_ fl)
    (format_record (fst (getCurrentTimestamp w)) level module file line message
     +:+ newline)
    (tick w).

(** The invariant of the process: live objects have been constructed; the
    manager, once it exists, has a live summary logger on
    [ALL_LOGS_SUMMARY.log] with minimum [DEBUG]; every registered logger is
    live, open, and on the file named after its module. *)
Definition wf (st : St) : Prop :=
  (forall p fl, heap st !! p = Some fl -> (p < constructed st)%nat) /\
  (forall mgr, instance st = Some mgr ->
     (exists ps fs,
         summary_logger_ mgr = Some ps /\ heap st !! ps = Some fs /\
         log_file_path_ fs = module_log_path (base_log_dir_ mgr) summary_file_name /\
         min_level_ fs = DEBUG) /\
     (forall m p, loggers_ mgr !! m = Some p ->
        exists fl,
          heap st !! p = Some fl /\ log_file_ fl = true /\
          log_file_path_ fl = module_log_path (base_log_dir_ mgr) m)).

(** What a step never undoes: live objects stay as they are, the count of
    constructed objects does not decrease, and a manager keeps its
    directory, its summary logger and its registrations. *)
Definition keeps (st st' : St) : Prop :=
  (forall p fl, heap st !! p = Some fl -> heap st' !! p = Some fl) /\
  (constructed st <= constructed st')%nat /\
  (forall mgr, instance st = Some mgr ->
     exists mgr',
       instance st' = Some mgr' /\
       base_log_dir_ mgr' = base_log_dir_ mgr /\
       summary_logger_ mgr' = summary_logger_ mgr /\
       forall m p, loggers_ mgr !! m = Some p -> loggers_ mgr' !! m = Some p).

(** The manager the first [getInstance] builds, and the state it leaves. *)
Definition first_manager (st : St) : LogManager :=
  {| loggers_ := ∅; summary_logger_ := Some (constructed st);
     base_log_dir_ := choose_log_dir (getenv (world st));
     initialized_ := true |}.

Definition first_state (st : St) : St :=
  let base := choose_log_dir (getenv (world st)) in
  let path := module_log_path base summary_file_name in
  {| world := world_after_new path
                (emit (EvSystem ("mkdir -p " +:+ base)) (world st));
     heap := <[constructed st :=
                 {| log_file_path_ := path;
                    log_file_ := can_open (world st) path;
                    min_level_ := DEBUG |}]> (heap st);
     constructed := S (constructed st);
     instance := Some (first_manager st) |}.

(** The state [getLogger] leaves when it creates and registers a logger,
    and when the file cannot be opened. *)
Definition created_state (module_name : string) (min_level : LogLevel)
    (mgr : LogManager) (st : St) : St :=
  let path := module_log_path (base_log_dir_ mgr) module_name in
  {| world := world_after_new path (world st);
     heap := <[constructed st :=
                 {| log_file_path_ := path; log_file_ := true;
                    min_level_ := min_level |}]> (heap st);
     constructed := S (constructed st);
     instance :=
       Some {| loggers_ := <[module_name := constructed st]> (loggers_ mgr);
               summary_logger_ := summary_logger_ mgr;
               base_log_dir_ := base_log_dir_ mgr;
               initialized_ := initialized_ mgr |} |}.

Definition refused_state (module_name : string) (mgr : LogManager) (st : St)
  : St :=
  {| world := world_after_new (module_log_path (base_log_dir_ mgr) module_name)
                (world st);
     heap := heap st;
     constructed := S (constructed st);
     instance := Some mgr |}.

(** The state a [FileLogger::log] on the object [fl] leaves. *)
Definition logged (fl : FileLogger) (level : LogLevel) (module file : string)
    (line : Z) (message : string) (st : St) : St :=
  if level_lt level (min_level_ fl) || negb (log_file_ fl) then st
  else set_world (world_after_log fl level module file line message (world st))
         st.

(** The directory the manager has, or will choose when it is constructed:
    what [getLogDirectory] answers. *)
Definition log_dir (st : St) : string :=
  match instance st with
  | Some mgr => base_log_dir_ mgr
  | None => choose_log_dir (getenv (world st))
  end.

Definition logged_if (o : option FileLogger) (level : LogLevel)
    (module file : string) (line : Z) (message : string) (st : St) : St :=
  match o with
  | Some fl => logged fl level module file line message st
  | None => st
  end.

End History.
Export History.

(** ** Scenarios *)

Module Scenarios.

(** A world with no environment variable set, an empty file system where
    every open succeeds, a clock that advances by a millisecond at each
    reading, and a fixed local time. *)
Definition quiet_world : World :=
  {| getenv := fun _ => None;
     can_open := fun _ => true;
     files := ∅;
     clock := fun n => Z.of_nat n * 1000000 + 1701959425123456789;
     clock_reads := 0;
     localtime := fun _ => Build_tm 123 11 7 14 30 25;
     events := [] |}.

(** The same world with another answer to the opens. *)
Definition world_where (openable : string -> bool) : World :=
  {| getenv := getenv quiet_world; can_open := openable;
     files := files quiet_world; clock := clock quiet_world;
     clock_reads := clock_reads quiet_world;
     localtime := localtime quiet_world; events := events quiet_world |}.

Definition summary_path : string :=
  "/tmp/two_stage_int_logs/ALL_LOGS_SUMMARY.log".

(** Every file can be opened but the summary file. *)
Definition summary_locked (path : string) : bool :=
  negb (String.eqb path summary_path).

(** No file can be opened: the log directory could not be created. *)
Definition nothing_opens (path : string) : bool := false.

(** Only the summary file can be opened. *)
Definition only_summary_opens (path : string) : bool :=
  String.eqb path summary_path.

Definition everything_opens (path : string) : bool := true.

(** A clock set one millisecond before the epoch. *)
Definition world_before_epoch : World :=
  {| getenv := getenv quiet_world; can_open := can_open quiet_world;
     files := files quiet_world; clock := fun _ => -1000000;
     clock_reads := 0;
     localtime := fun _ => Build_tm 70 0 1 0 0 0;
     events := [] |}.

End Scenarios.
Export Scenarios.

(** ** The call-site layer *)

Module Frontend.

(** [std::string(buffer)] on a [char] buffer: the characters before the
    first NUL. *)
Fixpoint c_string (s : string) : string :=
  match s with
  | EmptyString => EmptyString
  | String c s' =>
      if Ascii.eqb c Ascii.zero then EmptyString else String c (c_string s')
  end.

(** The first [n] characters of a string. *)
Fixpoint first_chars (n : nat) (s : string) : string :=
  match n, s with
  | S n', String c s' => String c (first_chars n' s')
  | _, _ => EmptyString
  end.

(** [char buffer[1024]]. *)
Definition buffer_size : nat := 1024.

(** [std::snprintf(buffer, size, format, args...)] leaves in the buffer the
    first [size - 1] characters of the expansion of the format, followed by
    a NUL.  The expansion itself is the C library's and is taken as given. *)
Definition snprintf (size : nat) (expansion : string) : string :=
  first_chars (size - 1) expansion.

(** [formatLogMessage(module, file, line, format, args...)]; [expansion] is
    what the format and its arguments expand to. *)
Definition formatLogMessage (module file : string) (line : Z)
    (expansion : string) : string :=
  c_string (snprintf buffer_size expansion).

(** The overload without format arguments: [std::string(message)]. *)
Definition formatLogMessage_plain (module file : string) (line : Z)
    (message : string) : string :=
  c_string message.

(** The [strcmp] chain that the macros [LOG] and [LOG_STREAM] both end
    with; [level] is the stringified level token. *)
Definition dispatch_on_level (module level file : string) (line : Z)
    (message : string) : M unit :=
  if String.eqb level "INFO" then writeLog module INFO file line message
  else if String.eqb level "WARN" then writeLog module WARN file line message
  else if String.eqb level "ERROR" then writeLog module ERROR file line message
  else if String.eqb level "DEBUG" then writeLog module DEBUG file line message
  else ret tt.

(** [LOG(module, level, format, ...)] with format arguments; [module] and
    [level] are the stringified tokens, [file] and [line] stand for
    [__FILE__] and [__LINE__]. *)
Definition LOG (module level file : string) (line : Z) (expansion : string)
  : M unit :=
  dispatch_on_level module level file line
    (formatLogMessage module file line expansion).

(** [LOG(module, level, message)] without format arguments. *)
Definition LOG_plain (module level file : string) (line : Z)
    (message : string) : M unit :=
  dispatch_on_level module level file line
    (formatLogMessage_plain module file line message).

(** [LOG_FILE] expands to [LOG]. *)
Definition LOG_FILE (module level file : string) (line : Z)
    (expansion : string) : M unit :=
  LOG module level file line expansion.

(** [LOG_STREAM(module, level, stream)]; [text] is what the insertions put
    in the [std::ostringstream]. *)
Definition LOG_STREAM (module level file : string) (line : Z) (text : string)
  : M unit :=
  dispatch_on_level module level file line text.

End Frontend.
Export Frontend.

(** ** Vocabulary for sequences of calls *)

Module Sequences.

(** The arguments of one [writeLog]. *)
Record Entry : Type := {
  entry_module : string;
  entry_level : LogLevel;
  entry_file : string;
  entry_line : Z;
  entry_message : string
}.

Definition write_entry (e : Entry) : M unit :=
  writeLog (entry_module e) (entry_level e) (entry_file e) (entry_line e)
    (entry_message e).

(** The application writes the entries one after the other. *)
Fixpoint write_entries (es : list Entry) : M unit :=
  match es with
  | [] => ret tt
  | e :: rest => write_entry e ;;; write_entries rest
  end.

(** The text of the entries as records, given their timestamps. *)
Fixpoint records_text (timestamps : list string) (es : list Entry) : string :=
  match timestamps, es with
  | t :: timestamps', e :: rest =>
      format_record t (entry_level e) (entry_module e) (entry_file e)
        (entry_line e) (entry_message e) +:+ newline +:+
      records_text timestamps' rest
  | _, _ => EmptyString
  end.

(** The lines [exportLogs] prints for a manager, in the order printed. *)
Definition export_lines (mgr : LogManager) : list string :=
  ("日志已导出到: " +:+ base_log_dir_ mgr) ::
  ("  * 汇总日志: " +:+ module_log_path (base_log_dir_ mgr) summary_file_name) ::
  map (fun entry => "  - " +:+ module_log_path (base_log_dir_ mgr) (fst entry))
      (in_key_order (loggers_ mgr)).

(** The world with some more lines on [std::cout]. *)
Definition print_lines (lines : list string) (w : World) : World :=
  fold_left (fun w line => emit (EvCout line) w) lines w.

(** Every live object is held by the manager: it is the summary logger or
    a registered logger. *)
Definition no_stray_object (st : St) : Prop :=
  forall p fl,
    heap st !! p = Some fl ->
    exists mgr,
      instance st = Some mgr /\
      (summary_logger_ mgr = Some p \/
       exists m, loggers_ mgr !! m = Some p).

End Sequences.
Export Sequences.

(** * Properties *)

(** ** Basenames *)

Section Basename.

Lemma no_separator_found s :
  find_last_of s separators = None <-> has_separator s = false.
Proof.
  induction s as [|c s IH]; cbn [find_last_of has_separator]; [tauto|].
  destruct (find_last_of s separators) as [pos|].
  - split; [discriminate|].
    intros H. apply orb_false_elim in H as [_ H].
    apply IH in H. discriminate.
  - destruct IH as [IH _]. rewrite (IH eq_refl), orb_false_r.
    destruct (char_in c separators); split; congruence.
Qed.

Lemma last_separator_found s pos :
  find_last_of s separators = Some pos ->
  exists pre c,
    char_in c separators = true /\
    s = pre +:+ String c (substr s (S pos)) /\
    has_separator (substr s (S pos)) = false.
Proof.
  revert pos.
  induction s as [|a s IH]; intros pos; cbn [find_last_of]; [discriminate|].
  destruct (find_last_of s separators) as [q|] eqn:Hq.
  - intros [= <-]. destruct (IH q eq_refl) as (pre & c & Hc & Hs & Hno).
    exists (String a pre), c.
    split; [exact Hc|]. split; [|exact Hno].
    change (String a s = String a (pre +:+ String c (substr s (S q)))).
    now rewrite <- Hs.
  - destruct (char_in a separators) eqn:Ha; [|discriminate].
    intros [= <-]. exists EmptyString, a.
    apply no_separator_found in Hq.
    split; [exact Ha|]. destruct s; auto.
Qed.

End Basename.


(** ** Timestamps *)

Section Digits.

Lemma checked_on_range (P : Z -> bool) (lo : Z) (len : nat) :
  forallb P (map (fun k => lo + Z.of_nat k) (seq 0 len)) = true ->
  forall n, lo <= n < lo + Z.of_nat len -> P n = true.
Proof.
  intros Hall n Hn. rewrite forallb_forall in Hall. apply Hall.
  apply in_map_iff. exists (Z.to_nat (n - lo)). split; [lia|].
  apply in_seq. lia.
Qed.

Lemma two_digits n :
  0 <= n < 100 -> fixed_digits 2 (pad_left 2 "0" (show_Z n)) n = true.
Proof.
  apply (checked_on_range
           (fun n => fixed_digits 2 (pad_left 2 "0" (show_Z n)) n) 0 100).
  vm_compute. reflexivity.
Qed.

Lemma three_digits n :
  0 <= n < 1000 -> fixed_digits 3 (pad_left 3 "0" (show_Z n)) n = true.
Proof.
  apply (checked_on_range
           (fun n => fixed_digits 3 (pad_left 3 "0" (show_Z n)) n) 0 1000).
  vm_compute. reflexivity.
Qed.

Lemma four_digits n :
  1000 <= n < 10000 -> fixed_digits 4 (show_Z n) n = true.
Proof.
  apply (checked_on_range (fun n => fixed_digits 4 (show_Z n) n)
           1000 (Z.to_nat 9000)).
  vm_compute. reflexivity.
Qed.

Lemma milliseconds_truncate now :
  0 <= now ->
  0 <= milliseconds_part now < 1000 /\
  milliseconds_part now * 1000000 <= now mod 1000000000
    < (milliseconds_part now + 1) * 1000000.
Proof.
  intros Hnow. unfold milliseconds_part.
  Z.to_euclidean_division_equations. lia.
Qed.

End Digits.

Ltac split_digits H :=
  unfold fixed_digits in H;
  apply andb_prop in H as [H _]; apply andb_prop in H as [_ H];
  cbn [list_ascii_of_string forallb] in H;
  repeat (let D := fresh "Hdigit" in apply andb_prop in H as [D H]);
  clear H.




(** Truncation, not rounding: 999.999999 ms into the second reads [.999]. *)
Example timestamp_truncates :
  format_timestamp (fun _ => Build_tm 123 11 7 14 30 25) 1701959425999999999
  = "2023-12-07 14:30:25.999".
Proof. vm_compute. reflexivity. Qed.

(** ** The operations, one by one *)

Section Operations.

Lemma content_append_file path text w q :
  content (append_file path text w) q =
  if decide (path = q) then content w path +:+ text else content w q.
Proof.
  unfold content at 1, append_file. cbn [files set_files].
  rewrite lookup_insert. now case_decide.
Qed.

Lemma content_tick w q : content (tick w) q = content w q.
Proof. reflexivity. Qed.

Lemma content_emit e w q : content (emit e w) q = content w q.
Proof. reflexivity. Qed.

Lemma content_world_after_new path w q :
  content (world_after_new path w) q = content w q.
Proof.
  unfold world_after_new, open_append. cbn [snd].
  destruct (can_open w path); [|reflexivity].
  unfold content at 1. cbn [files set_files emit].
  rewrite lookup_insert. case_decide; [subst|]; reflexivity.
Qed.

Lemma can_open_world_after_new path w :
  can_open (world_after_new path w) = can_open w.
Proof.
  unfold world_after_new, open_append. cbn [snd].
  now destruct (can_open w path).
Qed.

Lemma events_world_after_new path w :
  exists tail,
    events (world_after_new path w)
    = tail ++ EvOpen path (can_open w path) :: events w.
Proof.
  unfold world_after_new, open_append. cbn [snd].
  destruct (can_open w path) eqn:Hopen.
  - exists []. reflexivity.
  - eexists [_]. reflexivity.
Qed.

Lemma events_world_after_new_ok path w :
  can_open w path = true ->
  exists tail,
    events (world_after_new path w) = tail ++ EvOpen path true :: events w.
Proof.
  intros H. destruct (events_world_after_new path w) as [tail E].
  exists tail. now rewrite E, H.
Qed.

Lemma events_world_after_new_ko path w :
  can_open w path = false ->
  exists tail,
    events (world_after_new path w) = tail ++ EvOpen path false :: events w.
Proof.
  intros H. destruct (events_world_after_new path w) as [tail E].
  exists tail. now rewrite E, H.
Qed.

Lemma FileLogger_new_eq path lvl st :
  FileLogger_new path lvl st =
  Some (constructed st,
        {| world := world_after_new path (world st);
           heap := <[constructed st :=
                       {| log_file_path_ := path;
                          log_file_ := can_open (world st) path;
                          min_level_ := lvl |}]> (heap st);
           constructed := S (constructed st);
           instance := instance st |}).
Proof.
  unfold FileLogger_new, world_after_new, bind, get_world, update_world, alloc,
    open_append.
  cbn. now destruct (can_open (world st) path).
Qed.

Lemma log_eq this fl level module file line message st :
  heap st !! this = Some fl ->
  log this level module file line message st =
  Some (tt, logged fl level module file line message st).
Proof.
  intros Hfl. unfold log, logged, bind, deref. rewrite Hfl.
  now destruct (level_lt level (min_level_ fl) || negb (log_file_ fl)).
Qed.

Lemma getInstance_again st mgr :
  instance st = Some mgr -> getInstance st = Some (mgr, st).
Proof. intros H. unfold getInstance. now rewrite H. Qed.

Lemma getInstance_first st :
  instance st = None -> getInstance st = Some (first_manager st, first_state st).
Proof.
  intros H. unfold getInstance, LogManager_new, initializeLogDirectory.
  rewrite H. unfold bind at 1. cbn [get_world].
  unfold bind at 1. cbn [update_world].
  unfold bind. rewrite FileLogger_new_eq. reflexivity.
Qed.

Lemma getLogger_registered st mgr m lvl p :
  instance st = Some mgr -> loggers_ mgr !! m = Some p ->
  getLogger m lvl st = Some (Some p, st).
Proof.
  intros Hi Hm. unfold getLogger, bind.
  rewrite (getInstance_again _ _ Hi), Hm. reflexivity.
Qed.

Lemma getLogger_created st mgr m lvl :
  instance st = Some mgr -> loggers_ mgr !! m = None ->
  can_open (world st) (module_log_path (base_log_dir_ mgr) m) = true ->
  getLogger m lvl st = Some (Some (constructed st), created_state m lvl mgr st).
Proof.
  intros Hi Hm Hopen. unfold getLogger, bind.
  rewrite (getInstance_again _ _ Hi), Hm, FileLogger_new_eq.
  unfold isOpen, bind, deref. cbn [heap].
  rewrite lookup_insert_eq. cbn [log_file_ ret]. rewrite Hopen.
  reflexivity.
Qed.

Lemma getLogger_refused st mgr m lvl :
  wf st ->
  instance st = Some mgr -> loggers_ mgr !! m = None ->
  can_open (world st) (module_log_path (base_log_dir_ mgr) m) = false ->
  getLogger m lvl st = Some (None, refused_state m mgr st).
Proof.
  intros [Hheap _] Hi Hm Hopen. unfold getLogger, bind.
  rewrite (getInstance_again _ _ Hi), Hm, FileLogger_new_eq.
  unfold isOpen, bind, deref. cbn [heap].
  rewrite lookup_insert_eq. cbn [log_file_ ret]. rewrite Hopen.
  unfold release, refused_state. cbn.
  rewrite delete_insert_id; [now rewrite Hi|].
  destruct (heap st !! constructed st) as [fl|] eqn:Hfl; [|exact Hfl].
  apply Hheap in Hfl. lia.
Qed.

(** A call that starts with [getInstance] runs as from the state
    [getInstance] leaves. *)
Lemma getInstance_idem st mgr st' :
  getInstance st = Some (mgr, st') -> getInstance st' = Some (mgr, st').
Proof.
  unfold getInstance at 1. destruct (instance st) as [m|] eqn:Hi.
  - intros [= <- <-]. now apply getInstance_again.
  - destruct (LogManager_new st) as [[m s]|]; [|discriminate].
    intros [= <- <-]. now apply getInstance_again.
Qed.

Lemma getInstance_total st :
  exists mgr st',
    getInstance st = Some (mgr, st') /\ instance st' = Some mgr /\
    (forall m, instance st = Some m -> m = mgr /\ st' = st) /\
    (instance st = None -> mgr = first_manager st /\ st' = first_state st).
Proof.
  destruct (instance st) as [m|] eqn:Hi.
  - exists m, st. rewrite (getInstance_again _ _ Hi).
    repeat split; try congruence. all: intros ? [= ->]; reflexivity.
  - exists (first_manager st), (first_state st).
    rewrite (getInstance_first _ Hi).
    repeat split; try discriminate; auto.
Qed.

(** *** The invariant is kept *)

Lemma keeps_refl st : keeps st st.
Proof. repeat split; eauto. Qed.

Lemma keeps_trans st1 st2 st3 : keeps st1 st2 -> keeps st2 st3 -> keeps st1 st3.
Proof.
  intros (Ha & Hb & Hc) (Ha' & Hb' & Hc'). repeat split; [auto | lia |].
  intros mgr H. destruct (Hc _ H) as (mgr2 & H2 & Hd & Hs & Hl).
  destruct (Hc' _ H2) as (mgr3 & H3 & Hd' & Hs' & Hl').
  exists mgr3. repeat split; [assumption | congruence | congruence | auto].
Qed.

Lemma wf_start w : wf (process_start w).
Proof.
  split; cbn [process_start heap instance]; [|discriminate].
  intros p fl H. now rewrite lookup_empty in H.
Qed.

Lemma wf_set_world w st : wf st -> wf (set_world w st).
Proof. intros H. exact H. Qed.

Lemma keeps_set_world w st : keeps st (set_world w st).
Proof. exact (keeps_refl st). Qed.

Lemma wf_logged fl level module file line message st :
  wf st -> wf (logged fl level module file line message st).
Proof. intros H. unfold logged. now destruct (_ || _). Qed.

Lemma keeps_logged fl level module file line message st :
  keeps st (logged fl level module file line message st).
Proof. unfold logged. destruct (_ || _); exact (keeps_refl st). Qed.

Lemma wf_first_state st : wf st -> instance st = None -> wf (first_state st).
Proof.
  intros [Hheap _] Hi. split; cbn [first_state heap constructed instance].
  - intros p fl. rewrite lookup_insert. case_decide; [lia|].
    intros Hp. apply Hheap in Hp. lia.
  - intros mgr [= <-]. split.
    + eexists _, _. cbn [first_manager summary_logger_ base_log_dir_].
      rewrite lookup_insert_eq. repeat split.
    + intros m p. cbn [first_manager loggers_]. now rewrite lookup_empty.
Qed.

Lemma keeps_first_state st : wf st -> instance st = None -> keeps st (first_state st).
Proof.
  intros [Hheap _] Hi. repeat split; cbn [first_state heap constructed].
  - intros p fl H. rewrite lookup_insert_ne; [exact H|].
    apply Hheap in H. lia.
  - lia.
  - intros mgr H. congruence.
Qed.

Lemma wf_created_state m lvl mgr st :
  wf st -> instance st = Some mgr -> wf (created_state m lvl mgr st).
Proof.
  intros [Hheap Hmgr] Hi. destruct (Hmgr _ Hi) as [Hsum Hreg].
  split; cbn [created_state heap constructed instance].
  - intros p fl. rewrite lookup_insert. case_decide; [lia|].
    intros Hp. apply Hheap in Hp. lia.
  - intros mgr' [= <-]. cbn [summary_logger_ base_log_dir_ loggers_]. split.
    + destruct Hsum as (ps & fs & Hps & Hfs & Hpath & Hmin).
      exists ps, fs. repeat split; try assumption.
      rewrite lookup_insert_ne; [exact Hfs|]. apply Hheap in Hfs. lia.
    + intros m' p. rewrite lookup_insert. case_decide as Hm.
      * intros [= <-]. subst m'. eexists. rewrite lookup_insert_eq.
        repeat split.
      * intros H. destruct (Hreg _ _ H) as (fl & Hfl & Hopen & Hpath).
        exists fl. repeat split; try assumption.
        rewrite lookup_insert_ne; [exact Hfl|]. apply Hheap in Hfl. lia.
Qed.

Lemma keeps_created_state m lvl mgr st :
  wf st -> instance st = Some mgr -> loggers_ mgr !! m = None ->
  keeps st (created_state m lvl mgr st).
Proof.
  intros [Hheap _] Hi Hm. repeat split; cbn [created_state heap constructed].
  - intros p fl H. rewrite lookup_insert_ne; [exact H|].
    apply Hheap in H. lia.
  - lia.
  - intros mgr' H. rewrite Hi in H. injection H as <-.
    eexists. cbn [instance]. split; [reflexivity|].
    cbn [base_log_dir_ summary_logger_ loggers_]. repeat split.
    intros m' p H. rewrite lookup_insert_ne; [exact H | congruence].
Qed.

Lemma wf_refused_state m mgr st :
  wf st -> instance st = Some mgr -> wf (refused_state m mgr st).
Proof.
  intros [Hheap Hmgr] Hi. split; cbn [refused_state heap constructed instance].
  - intros p fl H. apply Hheap in H. lia.
  - intros mgr' [= <-]. exact (Hmgr _ Hi).
Qed.

Lemma keeps_refused_state m mgr st :
  instance st = Some mgr -> keeps st (refused_state m mgr st).
Proof.
  intros Hi. repeat split; cbn [refused_state heap constructed]; [auto | lia |].
  intros mgr' H. rewrite Hi in H. injection H as <-. exists mgr. auto.
Qed.

(** *** Every call returns *)

Lemma getInstance_sound st :
  wf st ->
  exists mgr st',
    getInstance st = Some (mgr, st') /\ instance st' = Some mgr /\
    wf st' /\ keeps st st'.
Proof.
  intros Hwf. destruct (instance st) as [mgr|] eqn:Hi.
  - exists mgr, st. rewrite (getInstance_again _ _ Hi).
    auto using keeps_refl.
  - exists (first_manager st), (first_state st).
    rewrite (getInstance_first _ Hi).
    auto using wf_first_state, keeps_first_state.
Qed.

Lemma getLogger_from_instance st mgr st' m lvl :
  getInstance st = Some (mgr, st') -> getLogger m lvl st = getLogger m lvl st'.
Proof.
  intros H. unfold getLogger, bind.
  now rewrite H, (getInstance_idem _ _ _ H).
Qed.

Lemma getLogger_cases st mgr m lvl :
  wf st -> instance st = Some mgr ->
  (exists p, loggers_ mgr !! m = Some p /\
             getLogger m lvl st = Some (Some p, st)) \/
  (loggers_ mgr !! m = None /\
   can_open (world st) (module_log_path (base_log_dir_ mgr) m) = true /\
   getLogger m lvl st
   = Some (Some (constructed st), created_state m lvl mgr st)) \/
  (loggers_ mgr !! m = None /\
   can_open (world st) (module_log_path (base_log_dir_ mgr) m) = false /\
   getLogger m lvl st = Some (None, refused_state m mgr st)).
Proof.
  intros Hwf Hi. destruct (loggers_ mgr !! m) as [p|] eqn:Hm.
  - left. exists p. eauto using getLogger_registered.
  - right.
    destruct (can_open (world st) (module_log_path (base_log_dir_ mgr) m))
      eqn:Hopen; [left | right]; repeat split.
    + now apply getLogger_created.
    + now apply getLogger_refused.
Qed.

(** [getLogger] returns; what it returns is registered and nothing else
    changes in the registry. *)
Lemma getLogger_sound st m lvl :
  wf st ->
  exists r st',
    getLogger m lvl st = Some (r, st') /\ wf st' /\ keeps st st' /\
    registered st' m = r /\ is_Some (instance st').
Proof.
  intros Hwf.
  destruct (getInstance_sound st Hwf) as (mgr & st1 & Hg & Hi & Hwf1 & Hk).
  rewrite (getLogger_from_instance _ _ _ m lvl Hg).
  destruct (getLogger_cases st1 mgr m lvl Hwf1 Hi)
    as [(p & Hm & ->) | [(Hm & Hopen & ->) | (Hm & Hopen & ->)]].
  - exists (Some p), st1. unfold registered. rewrite Hi. auto.
  - eexists _, _. split; [reflexivity|].
    split; [now apply wf_created_state|].
    split; [eapply keeps_trans; eauto using keeps_created_state|].
    split; [|now eexists].
    unfold registered. cbn. apply lookup_insert_eq.
  - eexists _, _. split; [reflexivity|].
    split; [now apply wf_refused_state|].
    split; [eapply keeps_trans; eauto using keeps_refused_state|].
    split; [|now eexists].
    unfold registered. cbn. exact Hm.
Qed.

Lemma set_world_same st : set_world (world st) st = st.
Proof. now destruct st. Qed.

Lemma getFilePath_live p fl st :
  heap st !! p = Some fl -> getFilePath p st = Some (log_file_path_ fl, st).
Proof. intros H. unfold getFilePath, bind, deref. now rewrite H. Qed.

Lemma report_paths_returns l st :
  (forall m p, (m, p) ∈ l -> is_Some (heap st !! p)) ->
  exists w, report_paths l st = Some (tt, set_world w st).
Proof.
  revert st. induction l as [|[m p] l IH]; intros st Hlive.
  - exists (world st). cbn. now rewrite set_world_same.
  - destruct (Hlive m p) as [fl Hfl]; [left|].
    cbn [report_paths]. unfold bind at 1.
    rewrite (getFilePath_live _ _ _ Hfl).
    unfold bind at 1. cbn [update_world].
    destruct (IH (set_world (emit (EvCout ("  - " +:+ log_file_path_ fl))
                               (world st)) st)) as [w Hw].
    + intros m' p' Hin. apply (Hlive m' p'). now right.
    + exists w. exact Hw.
Qed.

Lemma exportLogs_sound st :
  wf st ->
  exists st', exportLogs st = Some (tt, st') /\ wf st' /\ keeps st st'.
Proof.
  intros Hwf.
  destruct (getInstance_sound st Hwf) as (mgr & st1 & Hg & Hi & Hwf1 & Hk).
  destruct Hwf1 as [Hheap Hmgr].
  destruct (Hmgr _ Hi) as [(ps & fs & Hps & Hfs & _) Hreg].
  unfold exportLogs. unfold bind at 1. rewrite Hg.
  unfold bind at 1. cbn [update_world].
  unfold bind at 1. rewrite Hps. unfold bind at 1.
  rewrite (getFilePath_live ps fs); [|exact Hfs]. cbn [update_world set_world world].
  match goal with |- context [report_paths _ ?s] =>
    destruct (report_paths_returns (in_key_order (loggers_ mgr)) s) as [w Hw]
  end.
  - intros m p Hin. cbn [heap].
    unfold in_key_order in Hin. rewrite merge_sort_Permutation in Hin.
    apply elem_of_map_to_list in Hin.
    destruct (Hreg _ _ Hin) as (fl & Hfl & _). now exists fl.
  - rewrite Hw. eexists. split; [reflexivity|].
    split; [split; [exact Hheap | exact Hmgr]|].
    exact Hk.
Qed.

Lemma instance_logged fl level module file line message st :
  instance (logged fl level module file line message st) = instance st.
Proof. unfold logged. now destruct (_ || _). Qed.

Lemma heap_logged fl level module file line message st :
  heap (logged fl level module file line message st) = heap st.
Proof. unfold logged. now destruct (_ || _). Qed.

Lemma getSummaryLogger_eq st mgr :
  instance st = Some mgr -> getSummaryLogger st = Some (summary_logger_ mgr, st).
Proof.
  intros Hi. unfold getSummaryLogger, bind.
  now rewrite (getInstance_again _ _ Hi).
Qed.

(** [writeLog] in two stages: the lookup (or creation) of the module
    logger, then one [log] on each of the two loggers. *)
Lemma writeLog_shape st module level file line message :
  wf st ->
  exists r st1 fs,
    getLogger module DEBUG st = Some (r, st1) /\ wf st1 /\ keeps st st1 /\
    registered st1 module = r /\
    summary_logger st1 = Some fs /\
    writeLog module level file line message st
    = Some (tt, logged fs level module file line message
                  (logged_if (module_logger st1 module)
                     level module file line message st1)).
Proof.
  intros Hwf.
  destruct (getLogger_sound st module DEBUG Hwf)
    as (r & st1 & Hg & Hwf1 & Hk & Hr & [mgr Hi]).
  destruct (proj2 Hwf1 _ Hi) as [(ps & fs & Hps & Hfs & _) Hreg].
  exists r, st1, fs.
  split; [exact Hg|]. split; [exact Hwf1|]. split; [exact Hk|].
  split; [exact Hr|].
  split; [unfold summary_logger; now rewrite Hi, Hps|].
  unfold writeLog. unfold bind at 1. rewrite Hg.
  unfold module_logger. rewrite Hr.
  assert (Hrest : forall st2,
    instance st2 = Some mgr -> heap st2 = heap st1 ->
    (summary_logger <- getSummaryLogger ;;
     match summary_logger with
     | Some l => log l level module file line message
     | None => ret tt
     end) st2 = Some (tt, logged fs level module file line message st2)).
  { intros st2 Hi2 Hh2. unfold bind. rewrite (getSummaryLogger_eq _ _ Hi2), Hps.
    apply log_eq. now rewrite Hh2. }
  destruct r as [pm|].
  - unfold registered in Hr. rewrite Hi in Hr.
    destruct (Hreg _ _ Hr) as (fm & Hfm & _).
    unfold bind at 1. rewrite (log_eq _ _ _ _ _ _ _ _ Hfm), Hfm.
    cbn [logged_if].
    apply Hrest; [now rewrite instance_logged | apply heap_logged].
  - unfold bind at 1. cbn [ret logged_if]. now apply Hrest.
Qed.

Lemma wf_logged_if o level module file line message st :
  wf st -> wf (logged_if o level module file line message st).
Proof. destruct o; [apply wf_logged | trivial]. Qed.

Lemma keeps_logged_if o level module file line message st :
  keeps st (logged_if o level module file line message st).
Proof. destruct o; [apply keeps_logged | apply keeps_refl]. Qed.

Lemma run_call_sound st c :
  wf st -> exists st', run_call c st = Some (tt, st') /\ wf st' /\ keeps st st'.
Proof.
  intros Hwf. destruct c as [m lvl | m lvl file line msg | |]; cbn [run_call].
  - destruct (getLogger_sound st m lvl Hwf) as (r & st' & Hg & Hwf' & Hk & _).
    exists st'. unfold bind. rewrite Hg. auto.
  - destruct (writeLog_shape st m lvl file line msg Hwf)
      as (r & st1 & fs & _ & Hwf1 & Hk & _ & _ & ->).
    eexists. split; [reflexivity|]. split.
    + now apply wf_logged, wf_logged_if.
    + eapply keeps_trans; [exact Hk|].
      eapply keeps_trans; [apply keeps_logged_if | apply keeps_logged].
  - now apply exportLogs_sound.
  - destruct (getInstance_sound st Hwf) as (mgr & st' & Hg & _ & Hwf' & Hk).
    exists st'. unfold getLogDirectory, bind. rewrite Hg. auto.
Qed.

Lemma step_sound st st' : wf st -> step st st' -> wf st' /\ keeps st st'.
Proof.
  intros Hwf Hstep. destruct Hstep as [s w | s c s' Hrun].
  - split; [exact Hwf | exact (keeps_refl s)].
  - destruct (run_call_sound s c Hwf) as (s'' & Hrun' & Hwf' & Hk).
    rewrite Hrun in Hrun'. injection Hrun' as <-. auto.
Qed.

Lemma steps_sound st st' : wf st -> steps st st' -> wf st' /\ keeps st st'.
Proof.
  intros Hwf Hsteps. induction Hsteps as [s | s1 s2 s3 _ IH Hstep].
  - auto using keeps_refl.
  - destruct (IH Hwf) as [Hwf2 Hk]. destruct (step_sound _ _ Hwf2 Hstep).
    eauto using keeps_trans.
Qed.

Lemma reachable_wf st : reachable st -> wf st.
Proof. intros [w Hsteps]. exact (proj1 (steps_sound _ _ (wf_start w) Hsteps)). Qed.

Lemma reachable_start w : reachable (process_start w).
Proof. exists w. constructor. Qed.

Lemma steps_trans st1 st2 st3 : steps st1 st2 -> steps st2 st3 -> steps st1 st3.
Proof.
  intros H12 H23. induction H23 as [s | s1 s2 s3 _ IH Hstep]; [assumption|].
  exact (steps_more _ _ _ (IH H12) Hstep).
Qed.

Lemma reachable_steps st st' : reachable st -> steps st st' -> reachable st'.
Proof. intros [w Hsteps] H. exists w. eapply steps_trans; eassumption. Qed.

Lemma reachable_set_world w st : reachable st -> reachable (set_world w st).
Proof.
  intros H. eapply reachable_steps; [exact H|].
  econstructor; [constructor | constructor].
Qed.

Lemma reachable_after_call c st : reachable st -> reachable (after (run_call c) st).
Proof.
  intros H.
  destruct (run_call_sound st c (reachable_wf _ H)) as (st' & Hrun & _).
  unfold after. rewrite Hrun. eapply reachable_steps; [exact H|].
  econstructor; [constructor | now constructor 2 with c].
Qed.

Lemma writeLog_returns st module level file line message :
  wf st ->
  writeLog module level file line message st
  = Some (tt, after (writeLog module level file line message) st).
Proof.
  intros Hwf.
  destruct (writeLog_shape st module level file line message Hwf)
    as (r & st1 & fs & _ & _ & _ & _ & _ & Heq).
  unfold after. now rewrite Heq.
Qed.

Lemma getLogger_returns st m lvl :
  wf st ->
  getLogger m lvl st
  = Some (registered (after (getLogger m lvl) st) m, after (getLogger m lvl) st).
Proof.
  intros Hwf.
  destruct (getLogger_sound st m lvl Hwf) as (r & st' & Hg & _ & _ & Hr & _).
  unfold after. rewrite Hg. now rewrite Hr.
Qed.

Lemma wf_after_call c st : wf st -> wf (after (run_call c) st).
Proof.
  intros Hwf. destruct (run_call_sound st c Hwf) as (st' & Hrun & Hwf' & _).
  unfold after. now rewrite Hrun.
Qed.

Lemma after_getLogger_call m lvl st :
  after (run_call (CallGetLogger m lvl)) st = after (getLogger m lvl) st.
Proof.
  unfold after. cbn [run_call]. unfold bind.
  now destruct (getLogger m lvl st) as [[r s]|].
Qed.

Lemma wf_after_getLogger m lvl st : wf st -> wf (after (getLogger m lvl) st).
Proof. rewrite <- after_getLogger_call. apply wf_after_call. Qed.

Lemma reachable_after_getLogger m lvl st :
  reachable st -> reachable (after (getLogger m lvl) st).
Proof. rewrite <- after_getLogger_call. apply reachable_after_call. Qed.

Lemma reachable_after_writeLog module level file line message st :
  reachable st ->
  reachable (after (writeLog module level file line message) st).
Proof. apply (reachable_after_call (CallWriteLog module level file line message)). Qed.

(** *** What the calls leave untouched *)

Lemma getInstance_world st mgr st' :
  getInstance st = Some (mgr, st') ->
  (forall q, content (world st') q = content (world st) q) /\
  can_open (world st') = can_open (world st) /\
  base_log_dir_ mgr = log_dir st /\
  log_dir st' = log_dir st.
Proof.
  unfold log_dir. destruct (instance st) as [m|] eqn:Hi.
  - rewrite (getInstance_again _ _ Hi). intros [= <- <-]. now rewrite Hi.
  - rewrite (getInstance_first _ Hi). intros [= <- <-].
    cbn [first_state world instance first_manager base_log_dir_].
    split; [|split; [|split; reflexivity]].
    + intros q. now rewrite content_world_after_new.
    + now rewrite can_open_world_after_new.
Qed.

Lemma getLogger_content st m lvl r st' :
  wf st -> getLogger m lvl st = Some (r, st') ->
  forall q, content (world st') q = content (world st) q.
Proof.
  intros Hwf Hg q.
  destruct (getInstance_sound st Hwf) as (mgr & st1 & Hg1 & Hi & Hwf1 & _).
  destruct (getInstance_world _ _ _ Hg1) as (Hc & _).
  rewrite (getLogger_from_instance _ _ _ m lvl Hg1) in Hg. rewrite <- Hc.
  destruct (getLogger_cases st1 mgr m lvl Hwf1 Hi)
    as [(p & Hm & E) | [(Hm & Hopen & E) | (Hm & Hopen & E)]];
    rewrite E in Hg; injection Hg as <- <-; [reflexivity| |];
    cbn [created_state refused_state world];
    apply content_world_after_new.
Qed.

Lemma content_logged fl level module file line message st q :
  content (world (logged fl level module file line message st)) q =
  if level_lt level (min_level_ fl) || negb (log_file_ fl) then
    content (world st) q
  else if decide (log_file_path_ fl = q) then
    content (world st) (log_file_path_ fl) +:+
    format_record (fst (getCurrentTimestamp (world st)))
      level module file line message +:+ newline
  else content (world st) q.
Proof.
  unfold logged. destruct (_ || _); [reflexivity|].
  cbn [set_world world]. unfold world_after_log.
  now rewrite content_append_file.
Qed.

(** [getLogger] in full: the state [st1] that its [getInstance] leaves,
    then one of three outcomes. *)
Lemma getLogger_outcome st m lvl :
  wf st ->
  exists st1 mgr,
    instance st1 = Some mgr /\ wf st1 /\ keeps st st1 /\
    (forall m', registered st1 m' = registered st m') /\
    base_log_dir_ mgr = log_dir st /\
    can_open (world st1) = can_open (world st) /\
    (instance st <> None -> st1 = st) /\
    ((exists p, registered st m = Some p /\
                getLogger m lvl st = Some (Some p, st)) \/
     (registered st m = None /\
      can_open (world st) (module_log_path (log_dir st) m) = true /\
      getLogger m lvl st
      = Some (Some (constructed st1), created_state m lvl mgr st1)) \/
     (registered st m = None /\
      can_open (world st) (module_log_path (log_dir st) m) = false /\
      getLogger m lvl st = Some (None, refused_state m mgr st1))).
Proof.
  intros Hwf.
  destruct (getInstance_sound st Hwf) as (mgr & st1 & Hg & Hi & Hwf1 & Hk).
  destruct (getInstance_world _ _ _ Hg) as (_ & Hopen & Hbase & _).
  destruct (getInstance_total st) as (mgr' & st1' & Hg' & _ & Hsome & Hnone).
  rewrite Hg in Hg'. injection Hg' as <- <-.
  assert (Hreg : forall m', registered st1 m' = registered st m').
  { intros m'. unfold registered at 2. destruct (instance st) as [m0|] eqn:Hi0.
    - destruct (Hsome _ eq_refl) as [_ ->]. unfold registered. now rewrite Hi0.
    - destruct (Hnone eq_refl) as [-> ->]. reflexivity. }
  assert (Hst : instance st <> None -> st1 = st).
  { destruct (instance st) as [m0|]; [|congruence].
    intros _. now destruct (Hsome _ eq_refl). }
  exists st1, mgr. repeat (split; [assumption|]).
  rewrite (getLogger_from_instance _ _ _ m lvl Hg), <- (Hreg m), <- Hopen, <- Hbase.
  unfold registered. rewrite Hi.
  destruct (getLogger_cases st1 mgr m lvl Hwf1 Hi)
    as [(p & Hm & E) | [(Hm & Ho & E) | (Hm & Ho & E)]]; auto.
  left. exists p. split; [exact Hm|].
  rewrite E. do 2 f_equal. apply Hst.
  specialize (Hreg m). unfold registered in Hreg. rewrite Hi, Hm in Hreg.
  destruct (instance st); [discriminate | discriminate Hreg].
Qed.

Lemma keeps_log_dir st st' :
  instance st <> None -> keeps st st' -> log_dir st' = log_dir st.
Proof.
  intros Hi (_ & _ & Hk). unfold log_dir.
  destruct (instance st) as [mgr|]; [|congruence].
  destruct (Hk _ eq_refl) as (mgr' & -> & Hb & _). exact Hb.
Qed.

Lemma keeps_registered st st' m p :
  keeps st st' -> registered st m = Some p -> registered st' m = Some p.
Proof.
  intros (_ & _ & Hk). unfold registered.
  destruct (instance st) as [mgr|]; [|discriminate].
  destruct (Hk _ eq_refl) as (mgr' & -> & _ & _ & Hreg). apply Hreg.
Qed.

End Operations.

(** ** The record layout *)



(** ** The dual write *)

Section DualWrite.

Lemma append_cons c s t : String c s +:+ t = String c (s +:+ t).
Proof. reflexivity. Qed.

Lemma length_append s t :
  String.length (s +:+ t) = (String.length s + String.length t)%nat.
Proof.
  induction s as [|c s IH]; [reflexivity|].
  rewrite append_cons. cbn [String.length plus]. now rewrite IH.
Qed.

Lemma append_cancel_l s t t' : s +:+ t = s +:+ t' -> t = t'.
Proof.
  induction s as [|c s IH]; [trivial|].
  rewrite !append_cons. intros [= H]. auto.
Qed.

Lemma append_cancel_r s s' t : s +:+ t = s' +:+ t -> s = s'.
Proof.
  revert s'. induction s as [|c s IH]; intros [|c' s'] H.
  - reflexivity.
  - apply (f_equal String.length) in H.
    rewrite append_cons in H. cbn [String.length] in H.
    rewrite !length_append in H. cbn [String.length] in H. lia.
  - apply (f_equal String.length) in H.
    rewrite append_cons in H. cbn [String.length] in H.
    rewrite !length_append in H. cbn [String.length] in H. lia.
  - rewrite !append_cons in H. injection H as -> H. f_equal. auto.
Qed.

Lemma module_log_path_inj base m m' :
  module_log_path base m = module_log_path base m' -> m = m'.
Proof.
  unfold module_log_path. intros H.
  apply append_cancel_l in H. rewrite !append_cons in H. injection H as H.
  change (("" +:+ m) +:+ ".log" = ("" +:+ m') +:+ ".log") in H.
  now apply append_cancel_r in H.
Qed.

Lemma level_not_below_DEBUG level : level_lt level DEBUG = false.
Proof. now destruct level. Qed.

Lemma module_logger_logged fl level module file line message st m :
  module_logger (logged fl level module file line message st) m
  = module_logger st m.
Proof.
  unfold module_logger, registered.
  now rewrite instance_logged, heap_logged.
Qed.

Lemma summary_logger_logged fl level module file line message st :
  summary_logger (logged fl level module file line message st)
  = summary_logger st.
Proof.
  unfold summary_logger. now rewrite instance_logged, heap_logged.
Qed.

Lemma module_logger_logged_if o level module file line message st m :
  module_logger (logged_if o level module file line message st) m
  = module_logger st m.
Proof. destruct o; [apply module_logger_logged | reflexivity]. Qed.

Lemma summary_logger_logged_if o level module file line message st :
  summary_logger (logged_if o level module file line message st)
  = summary_logger st.
Proof. destruct o; [apply summary_logger_logged | reflexivity]. Qed.

(** The loggers a well-formed state holds are where the directory says. *)
Lemma module_logger_wf st m fl :
  wf st -> module_logger st m = Some fl ->
  log_file_ fl = true /\ log_file_path_ fl = module_log_path (log_dir st) m.
Proof.
  intros [_ Hmgr]. unfold module_logger, registered, log_dir.
  destruct (instance st) as [mgr|]; [|discriminate].
  destruct (loggers_ mgr !! m) as [p|] eqn:Hm; [|discriminate].
  intros Hfl. destruct (Hmgr _ eq_refl) as [_ Hreg].
  destruct (Hreg _ _ Hm) as (fl' & Hfl' & Hopen & Hpath).
  rewrite Hfl in Hfl'. injection Hfl' as <-. auto.
Qed.

Lemma summary_logger_wf st fs :
  wf st -> summary_logger st = Some fs ->
  min_level_ fs = DEBUG /\
  log_file_path_ fs = module_log_path (log_dir st) summary_file_name.
Proof.
  intros [_ Hmgr]. unfold summary_logger, log_dir.
  destruct (instance st) as [mgr|]; [|discriminate].
  destruct (Hmgr _ eq_refl) as [(ps & fs' & Hps & Hfs & Hpath & Hmin) _].
  rewrite Hps, Hfs. intros [= <-]. auto.
Qed.

Lemma getLogger_log_dir st m lvl r st' :
  wf st -> getLogger m lvl st = Some (r, st') -> log_dir st' = log_dir st.
Proof.
  intros Hwf Hg.
  destruct (getInstance_sound st Hwf) as (mgr & st1 & Hg1 & Hi & Hwf1 & _).
  destruct (getInstance_world _ _ _ Hg1) as (_ & _ & _ & Hd).
  rewrite (getLogger_from_instance _ _ _ m lvl Hg1) in Hg. rewrite <- Hd.
  destruct (getLogger_sound st1 m lvl Hwf1) as (r' & st'' & Hg' & _ & Hk & _).
  rewrite Hg in Hg'. injection Hg' as <- <-.
  destruct Hk as (_ & _ & Hk). destruct (Hk _ Hi) as (mgr' & Hi' & Hb & _).
  unfold log_dir. now rewrite Hi, Hi'.
Qed.

(** What [writeLog] does, in terms of the state [st1] that its [getLogger]
    leaves. *)
Lemma writeLog_effect st module level file line message :
  wf st ->
  exists st1 fs,
    writeLog module level file line message st
    = Some (tt, logged fs level module file line message
                  (logged_if (module_logger st1 module)
                     level module file line message st1)) /\
    wf st1 /\
    summary_logger st1 = Some fs /\
    log_dir st1 = log_dir st /\
    (forall q, content (world st1) q = content (world st) q) /\
    (forall fl, module_logger st module = Some fl ->
                module_logger st1 module = Some fl).
Proof.
  intros Hwf.
  destruct (writeLog_shape st module level file line message Hwf)
    as (r & st1 & fs & Hg & Hwf1 & Hk & Hr & Hsum & Heq).
  exists st1, fs. split; [exact Heq|]. split; [exact Hwf1|].
  split; [exact Hsum|].
  split; [exact (getLogger_log_dir _ _ _ _ _ Hwf Hg)|].
  split; [exact (getLogger_content _ _ _ _ _ Hwf Hg)|].
  intros fl. unfold module_logger, registered.
  destruct Hk as (Hheap & _ & Hk).
  destruct (instance st) as [mgr|]; [|discriminate].
  destruct (Hk _ eq_refl) as (mgr1 & -> & _ & _ & Hreg).
  destruct (loggers_ mgr !! module) as [p|] eqn:Hp; [|discriminate].
  rewrite (Hreg _ _ Hp). apply Hheap.
Qed.

End DualWrite.

Section Frames.

Lemma events_logged fl level module file line message st :
  events (world (logged fl level module file line message st))
  = events (world st).
Proof. unfold logged. now destruct (_ || _). Qed.

Lemma constructed_logged fl level module file line message st :
  constructed (logged fl level module file line message st) = constructed st.
Proof. unfold logged. now destruct (_ || _). Qed.

Lemma content_logged_elsewhere fl level module file line message st q :
  q <> log_file_path_ fl ->
  content (world (logged fl level module file line message st)) q
  = content (world st) q.
Proof.
  intros Hq. rewrite content_logged. destruct (_ || _); [reflexivity|].
  now rewrite decide_False by congruence.
Qed.

End Frames.

Section Stamps.

Lemma clock_world_after_new path w :
  clock (world_after_new path w) = clock w /\
  clock_reads (world_after_new path w) = clock_reads w /\
  localtime (world_after_new path w) = localtime w.
Proof.
  unfold world_after_new, open_append. cbn [snd].
  now destruct (can_open w path).
Qed.

Lemma getLogger_clock st m lvl r st' :
  wf st -> getLogger m lvl st = Some (r, st') ->
  clock (world st') = clock (world st) /\
  clock_reads (world st') = clock_reads (world st) /\
  localtime (world st') = localtime (world st).
Proof.
  intros Hwf Hg.
  destruct (getInstance_sound st Hwf) as (mgr & st1 & Hg1 & Hi & Hwf1 & _).
  assert (H1 : clock (world st1) = clock (world st) /\
               clock_reads (world st1) = clock_reads (world st) /\
               localtime (world st1) = localtime (world st)).
  { destruct (getInstance_total st) as (mgr' & st1' & Hg' & _ & Hsome & Hnone).
    rewrite Hg1 in Hg'. injection Hg' as <- <-.
    destruct (instance st) as [m0|] eqn:Hi0.
    - now destruct (Hsome _ eq_refl) as [_ ->].
    - destruct (Hnone eq_refl) as [_ ->]. cbn [first_state world].
      exact (clock_world_after_new _
               (emit (EvSystem ("mkdir -p " +:+
                                choose_log_dir (getenv (world st))))
                  (world st))). }
  rewrite (getLogger_from_instance _ _ _ m lvl Hg1) in Hg.
  destruct H1 as (<- & <- & <-).
  destruct (getLogger_cases st1 mgr m lvl Hwf1 Hi)
    as [(p & Hm & E) | [(Hm & _ & E) | (Hm & _ & E)]];
    rewrite E in Hg; injection Hg as <- <-; [auto| |];
    cbn [created_state refused_state world]; apply clock_world_after_new.
Qed.

End Stamps.







(** C4, as the code has it.  In every state the process can be in,
    [writeLog] returns (no null or dangling logger is ever used) and leaves
    a state the process can go on from.  When the module's logger could not
    be opened, the record still reaches the summary file, provided the
    summary logger itself is open. *)
Theorem writeLog_always_returns (st : St) (module : string) (level : LogLevel)
    (file : string) (line : Z) (message : string) :
  reachable st ->
  exists st' fs,
    writeLog module level file line message st = Some (tt, st') /\
    reachable st' /\
    summary_logger st' = Some fs /\
    (module_logger st' module = None ->
     log_file_ fs = true ->
     exists t,
       content (world st') (log_file_path_ fs) =
         content (world st) (log_file_path_ fs) +:+
         format_record t level module file line message +:+ newline).
Proof.
  intros Hreach. pose proof (reachable_wf _ Hreach) as Hwf.
  destruct (writeLog_effect st module level file line message Hwf)
    as (st1 & fs & Heq & Hwf1 & Hsum & Hdir & Hcontent & _).
  eexists _, fs. split; [exact Heq|]. split.
  { eapply reachable_steps; [exact Hreach|].
    econstructor; [constructor|].
    now constructor 2 with (CallWriteLog module level file line message). }
  split; [now rewrite summary_logger_logged, summary_logger_logged_if|].
  rewrite module_logger_logged, module_logger_logged_if.
  intros Hnone Hopen. rewrite Hnone. cbn [logged_if].
  destruct (summary_logger_wf _ _ Hwf1 Hsum) as [Hmin_s _].
  eexists. rewrite content_logged, Hmin_s, level_not_below_DEBUG, Hopen.
  cbn [orb negb]. rewrite decide_True by reflexivity.
  now rewrite Hcontent.
Qed.

(** No file can be opened: the module's logger fails to open, [writeLog]
    returns, and the record does not reach the summary file. *)
Lemma writeLog_always_returns_nothing_opens :
  let st := process_start (world_where nothing_opens) in
  let st' := after (writeLog "Planner" ERROR "planner.cpp" 42 "lost") st in
  writeLog "Planner" ERROR "planner.cpp" 42 "lost" st = Some (tt, st') /\
  module_logger st' "Planner" = None /\
  ~ (exists t,
       content (world st') summary_path =
         content (world st) summary_path +:+
         format_record t ERROR "Planner" "planner.cpp" 42 "lost" +:+ newline).
Proof.
  intros st st'. split; [apply writeLog_returns, wf_start|].
  split; [vm_compute; reflexivity|].
  intros [t Hs]. vm_compute in Hs. discriminate Hs.
Qed.

Lemma writeLog_always_returns_witness :
  reachable (process_start (world_where only_summary_opens)) /\
  exists st' fs,
    writeLog "Planner" ERROR "planner.cpp" 42 "lost"
      (process_start (world_where only_summary_opens)) = Some (tt, st') /\
    reachable st' /\
    summary_logger st' = Some fs /\
    (module_logger st' "Planner" = None ->
     log_file_ fs = true ->
     exists t,
       content (world st') (log_file_path_ fs) =
         content (world (process_start (world_where only_summary_opens)))
           (log_file_path_ fs) +:+
         format_record t ERROR "Planner" "planner.cpp" 42 "lost" +:+ newline).
Proof.
  split; [exists (world_where only_summary_opens); constructor|].
  apply writeLog_always_returns.
  exists (world_where only_summary_opens). constructor.
Defined.

(** ** The registry *)

(** C5, as the code has it.  [getLogger] returns; the result is null
    exactly when the module was not registered and its file could not be
    opened.  A non-null result is the logger registered for the module: it
    is live, open and on [base_directory/moduleName.log]; it has the given
    minimum level when this call created it, and is the logger registered
    before, unchanged, otherwise. *)
Theorem getLogger_null_iff_creation_failed (st : St) (module_name : string)
    (min_level : LogLevel) :
  reachable st ->
  exists r st',
    getLogger module_name min_level st = Some (r, st') /\
    (r = None <->
     registered st module_name = None /\
     can_open (world st) (module_log_path (log_dir st) module_name) = false) /\
    forall p,
      r = Some p ->
      registered st' module_name = Some p /\
      exists fl,
        heap st' !! p = Some fl /\
        log_file_ fl = true /\
        log_file_path_ fl = module_log_path (log_dir st) module_name /\
        (registered st module_name = None -> min_level_ fl = min_level) /\
        (forall p', registered st module_name = Some p' ->
                    p' = p /\ heap st !! p = Some fl).
Proof.
  intros Hreach. pose proof (reachable_wf _ Hreach) as Hwf.
  destruct (getLogger_outcome st module_name min_level Hwf)
    as (st1 & mgr & Hi & Hwf1 & Hk & Hreg & Hbase & Hopen & Hst &
        [(p & Hp & E) | [(Hnone & Ho & E) | (Hnone & Ho & E)]]);
    rewrite E; eexists _, _; (split; [reflexivity|]).
  - split; [split; [discriminate | intros [H _]; congruence]|].
    intros q [= <-]. split; [exact Hp|].
    assert (exists fl, heap st !! p = Some fl /\ log_file_ fl = true /\
              log_file_path_ fl = module_log_path (log_dir st) module_name)
      as (fl & Hfl & Hop & Hpath).
    { unfold registered in Hp. unfold log_dir.
      destruct (instance st) as [m0|] eqn:Hi0; [|discriminate].
      destruct (proj2 Hwf _ Hi0) as [_ Hlive]. exact (Hlive _ _ Hp). }
    exists fl. split; [exact Hfl|]. split; [exact Hop|]. split; [exact Hpath|].
    split; [congruence|]. intros p' Hp'. split; [congruence | exact Hfl].
  - split; [split; [discriminate | intros [_ H]; congruence]|].
    intros q [= <-]. split.
    { unfold registered. cbn [created_state instance loggers_].
      apply lookup_insert_eq. }
    eexists. split; [cbn [created_state heap]; apply lookup_insert_eq|].
    cbn [log_file_ log_file_path_ min_level_]. rewrite Hbase.
    split; [reflexivity|]. split; [reflexivity|]. split; [reflexivity|].
    intros p' Hp'. congruence.
  - split; [split; [auto | reflexivity]|]. discriminate.
Qed.

(** [Planner] is registered with minimum [DEBUG]; asked again with
    minimum [ERROR], [getLogger] returns a logger whose minimum is not
    [ERROR]. *)
Lemma getLogger_keeps_first_minimum :
  let st := after (getLogger "Planner" DEBUG) (process_start quiet_world) in
  exists p st' fl,
    getLogger "Planner" ERROR st = Some (Some p, st') /\
    heap st' !! p = Some fl /\
    min_level_ fl <> ERROR.
Proof.
  intros st.
  pose proof (getLogger_returns st "Planner" ERROR
                (wf_after_getLogger _ _ _ (wf_start _))) as H.
  assert (Hr : registered (after (getLogger "Planner" ERROR) st) "Planner"
               = Some 1%nat) by (vm_compute; reflexivity).
  rewrite Hr in H.
  exists 1%nat, (after (getLogger "Planner" ERROR) st),
    {| log_file_path_ := "/tmp/two_stage_int_logs/Planner.log";
       log_file_ := true; min_level_ := DEBUG |}.
  split; [exact H|]. split; [vm_compute; reflexivity | discriminate].
Qed.

Lemma getLogger_null_iff_creation_failed_witness :
  reachable (process_start quiet_world) /\
  exists r st',
    getLogger "Planner" WARN (process_start quiet_world) = Some (r, st') /\
    (r = None <->
     registered (process_start quiet_world) "Planner" = None /\
     can_open (world (process_start quiet_world))
       (module_log_path (log_dir (process_start quiet_world)) "Planner")
     = false) /\
    forall p,
      r = Some p ->
      registered st' "Planner" = Some p /\
      exists fl,
        heap st' !! p = Some fl /\
        log_file_ fl = true /\
        log_file_path_ fl
        = module_log_path (log_dir (process_start quiet_world)) "Planner" /\
        (registered (process_start quiet_world) "Planner" = None ->
         min_level_ fl = WARN) /\
        (forall p', registered (process_start quiet_world) "Planner" = Some p' ->
                    p' = p /\ heap (process_start quiet_world) !! p = Some fl).
Proof.
  split; [exists quiet_world; constructor|].
  apply getLogger_null_iff_creation_failed.
  exists quiet_world. constructor.
Defined.

(** C3, as the code has it.  Once [getLogger] has returned a logger for a
    module, every later [getLogger] for that module, whatever the minimum
    level asked and whatever happened in between, returns that same object
    and changes nothing: no other [FileLogger] is constructed for the
    module.  The object keeps its fields, and its path is
    [base_directory/moduleName.log]. *)
Theorem getLogger_reuses_the_logger (st : St) (module_name : string)
    (level1 : LogLevel) (p : ptr) (st1 : St) :
  reachable st ->
  getLogger module_name level1 st = Some (Some p, st1) ->
  exists fl,
    heap st1 !! p = Some fl /\
    log_file_path_ fl = module_log_path (log_dir st) module_name /\
    forall st2 level2,
      steps st1 st2 ->
      getLogger module_name level2 st2 = Some (Some p, st2) /\
      heap st2 !! p = Some fl.
Proof.
  intros Hreach Hg. pose proof (reachable_wf _ Hreach) as Hwf.
  destruct (getLogger_sound st module_name level1 Hwf)
    as (r & s & Hg' & Hwf1 & _ & Hr & Hi).
  rewrite Hg in Hg'. injection Hg' as <- <-.
  pose proof (getLogger_log_dir _ _ _ _ _ Hwf Hg) as Hdir.
  assert (exists fl, module_logger st1 module_name = Some fl) as [fl Hfl].
  { unfold module_logger. rewrite Hr. unfold registered in Hr.
    destruct (instance st1) as [mgr|] eqn:E; [|discriminate].
    destruct (proj2 (proj2 Hwf1 _ E) _ _ Hr) as (fl & Hfl & _). eauto. }
  destruct (module_logger_wf _ _ _ Hwf1 Hfl) as [_ Hpath].
  unfold module_logger in Hfl. rewrite Hr in Hfl.
  exists fl. split; [exact Hfl|]. split; [now rewrite <- Hdir|].
  intros st2 level2 Hsteps.
  destruct (steps_sound _ _ Hwf1 Hsteps) as [Hwf2 Hk].
  pose proof (keeps_registered _ _ _ _ Hk Hr) as Hr2.
  split; [|now apply (proj1 Hk)].
  unfold registered in Hr2. destruct (instance st2) as [mgr2|] eqn:E;
    [|discriminate].
  now apply getLogger_registered with mgr2.
Qed.

(** The directory is not writable at the first call and is at the second:
    the first [getLogger] returns null, the second returns a logger, and
    two [FileLogger]s have been constructed for the one module. *)
Lemma getLogger_twice_after_failure :
  let st := after getInstance (process_start (world_where only_summary_opens)) in
  let st1 := after (getLogger "Planner" DEBUG) st in
  let st1' := set_world (reopen everything_opens (world st1)) st1 in
  let st2 := after (getLogger "Planner" DEBUG) st1' in
  getLogger "Planner" DEBUG st = Some (None, st1) /\
  getLogger "Planner" DEBUG st1' = Some (Some 2%nat, st2) /\
  constructed st = 1%nat /\ constructed st1 = 2%nat /\ constructed st2 = 3%nat /\
  ~ (forall r1 r2 s2,
       getLogger "Planner" DEBUG st = Some (r1, st1) ->
       getLogger "Planner" DEBUG st1' = Some (r2, s2) ->
       r1 = r2 /\ constructed s2 = constructed st1).
Proof.
  intros st st1 st1' st2.
  assert (Hwf : wf st).
  { apply (wf_after_call CallGetLogDirectory (process_start _)), wf_start. }
  assert (Hwf1 : wf st1') by apply wf_set_world, wf_after_getLogger, Hwf.
  pose proof (getLogger_returns st "Planner" DEBUG Hwf) as H1.
  pose proof (getLogger_returns st1' "Planner" DEBUG Hwf1) as H2.
  fold st1 in H1. fold st2 in H2.
  replace (registered st1 "Planner") with (@None ptr) in H1
    by (vm_compute; reflexivity).
  replace (registered st2 "Planner") with (Some 2%nat) in H2
    by (vm_compute; reflexivity).
  split; [exact H1|]. split; [exact H2|].
  do 3 (split; [vm_compute; reflexivity|]).
  intros H. destruct (H _ _ _ H1 H2) as [E _]. discriminate E.
Qed.

Lemma getLogger_reuses_the_logger_witness :
  let st := process_start quiet_world in
  let st1 := after (getLogger "Planner" DEBUG) st in
  (reachable st /\ getLogger "Planner" DEBUG st = Some (Some 1%nat, st1)) /\
  exists fl,
    heap st1 !! 1%nat = Some fl /\
    log_file_path_ fl = module_log_path (log_dir st) "Planner" /\
    forall st2 level2,
      steps st1 st2 ->
      getLogger "Planner" level2 st2 = Some (Some 1%nat, st2) /\
      heap st2 !! 1%nat = Some fl.
Proof.
  intros st st1.
  assert (Hreach : reachable st) by (exists quiet_world; constructor).
  assert (Hg : getLogger "Planner" DEBUG st = Some (Some 1%nat, st1)).
  { pose proof (getLogger_returns st "Planner" DEBUG (wf_start _)) as H.
    fold st1 in H.
    replace (registered st1 "Planner") with (Some 1%nat) in H
      by (vm_compute; reflexivity).
    exact H. }
  split; [split; [exact Hreach | exact Hg]|].
  exact (getLogger_reuses_the_logger st "Planner" DEBUG 1%nat st1 Hreach Hg).
Defined.

(** C10.  When the open for a module that is not registered fails,
    [getLogger] returns null after constructing (and dropping) one
    [FileLogger], and the registrations are what they were.  In any later
    state where the module is still not registered, [getLogger] opens the
    same path again and constructs another object; when that open succeeds
    it registers and returns the new object, whose identity differs from
    that of every [FileLogger] constructed before, those of the failed
    attempts included. *)
Theorem getLogger_failure_is_retried (st : St) (module_name : string)
    (min_level : LogLevel) :
  let path := module_log_path (log_dir st) module_name in
  reachable st ->
  registered st module_name = None ->
  can_open (world st) path = false ->
  exists st1,
    getLogger module_name min_level st = Some (None, st1) /\
    (forall m, registered st1 m = registered st m) /\
    (constructed st < constructed st1)%nat /\
    forall st2 min_level',
      steps st1 st2 ->
      registered st2 module_name = None ->
      exists r st3,
        getLogger module_name min_level' st2 = Some (r, st3) /\
        (exists tail,
            events (world st3)
            = tail ++ EvOpen path (can_open (world st2) path)
                   :: events (world st2)) /\
        constructed st3 = S (constructed st2) /\
        (can_open (world st2) path = true ->
         r = Some (constructed st2) /\
         registered st3 module_name = Some (constructed st2) /\
         heap st3 !! constructed st2
         = Some {| log_file_path_ := path; log_file_ := true;
                   min_level_ := min_level' |} /\
         (constructed st1 <= constructed st2)%nat /\
         forall q, (q < constructed st2)%nat -> r <> Some q).
Proof.
  intros path Hreach Hnone Hopen. pose proof (reachable_wf _ Hreach) as Hwf.
  destruct (getLogger_outcome st module_name min_level Hwf)
    as (s1 & mgr & Hi & Hwf1 & Hk & Hreg & Hbase & Hcan & Hst &
        [(p & Hp & _) | [(_ & Ho & _) | (_ & _ & E)]]);
    [congruence | unfold path in Hopen; congruence |].
  exists (refused_state module_name mgr s1). split; [exact E|].
  assert (Hsame : forall m, registered (refused_state module_name mgr s1) m
                            = registered st m).
  { intros m. rewrite <- Hreg. unfold registered.
    cbn [refused_state instance]. now rewrite Hi. }
  split; [exact Hsame|].
  split; [destruct Hk as (_ & Hc & _); cbn [refused_state constructed]; lia|].
  intros st2 min_level' Hsteps Hnone2.
  assert (Hwf1' : wf (refused_state module_name mgr s1))
    by now apply wf_refused_state.
  destruct (steps_sound _ _ Hwf1' Hsteps) as [Hwf2 Hk2].
  assert (Hdir : log_dir st2 = log_dir st).
  { rewrite (keeps_log_dir (refused_state module_name mgr s1) st2);
      [|discriminate | exact Hk2].
    unfold log_dir. cbn [refused_state instance]. exact Hbase. }
  destruct (getLogger_outcome st2 module_name min_level' Hwf2)
    as (s2 & mgr2 & Hi2 & _ & _ & _ & Hbase2 & _ & Hst2 & Hcases).
  assert (s2 = st2) as ->.
  { apply Hst2. destruct Hk2 as (_ & _ & Hk2).
    destruct (Hk2 mgr eq_refl) as (m' & E' & _). congruence. }
  rewrite Hdir in Hcases. fold path in Hcases.
  rewrite Hdir in Hbase2.
  destruct Hcases as [(p & Hp & _) | [(_ & Ho & ->) | (_ & Ho & ->)]];
    [congruence | |]; eexists _, _; (split; [reflexivity|]).
  - unfold created_state, registered.
    cbn [world constructed heap instance loggers_].
    rewrite Hbase2. fold path. rewrite Ho.
    split; [apply events_world_after_new_ok; exact Ho|].
    split; [reflexivity|]. intros _. split; [reflexivity|].
    split; [apply lookup_insert_eq|].
    split; [apply lookup_insert_eq|].
    split; [exact (proj1 (proj2 Hk2))|].
    intros q Hq [= Hsame_id]. lia.
  - cbn [refused_state world constructed]. rewrite Hbase2. fold path.
    rewrite Ho.
    split; [apply events_world_after_new_ko; exact Ho|].
    split; [reflexivity | discriminate].
Qed.

Lemma getLogger_failure_is_retried_witness :
  let st := process_start (world_where only_summary_opens) in
  let path := module_log_path (log_dir st) "Planner" in
  (reachable st /\ registered st "Planner" = None /\
   can_open (world st) path = false) /\
  exists st1,
    getLogger "Planner" INFO st = Some (None, st1) /\
    (forall m, registered st1 m = registered st m) /\
    (constructed st < constructed st1)%nat /\
    forall st2 min_level',
      steps st1 st2 ->
      registered st2 "Planner" = None ->
      exists r st3,
        getLogger "Planner" min_level' st2 = Some (r, st3) /\
        (exists tail,
            events (world st3)
            = tail ++ EvOpen path (can_open (world st2) path)
                   :: events (world st2)) /\
        constructed st3 = S (constructed st2) /\
        (can_open (world st2) path = true ->
         r = Some (constructed st2) /\
         registered st3 "Planner" = Some (constructed st2) /\
         heap st3 !! constructed st2
         = Some {| log_file_path_ := path; log_file_ := true;
                   min_level_ := min_level' |} /\
         (constructed st1 <= constructed st2)%nat /\
         forall q, (q < constructed st2)%nat -> r <> Some q).
Proof.
  intros st path.
  assert (Hreach : reachable st)
    by (exists (world_where only_summary_opens); constructor).
  split; [split; [exact Hreach | split; reflexivity]|].
  exact (getLogger_failure_is_retried st "Planner" INFO Hreach eq_refl eq_refl).
Defined.

(** ** The log directory *)

(** C7.  The first [getInstance] constructs the manager with the value of
    [LOG_DIR] as its directory if that variable is set, else the value of
    [ROS_WORKSPACE] followed by ["/logs/current"] if that one is set, else
    ["/tmp/two_stage_int_logs"].  Whatever the application calls and
    however the surroundings change afterwards, the environment variables
    included, [getLogDirectory] answers that same directory. *)
Theorem log_directory_chosen_once (st : St) :
  reachable st ->
  instance st = None ->
  exists mgr st1,
    getInstance st = Some (mgr, st1) /\
    base_log_dir_ mgr =
      match getenv (world st) "LOG_DIR" with
      | Some log_dir_env => log_dir_env
      | None =>
          match getenv (world st) "ROS_WORKSPACE" with
          | Some workspace => workspace +:+ "/logs/current"
          | None => "/tmp/two_stage_int_logs"
          end
      end /\
    forall st2,
      steps st1 st2 ->
      getLogDirectory st2 = Some (base_log_dir_ mgr, st2).
Proof.
  intros Hreach Hnone. pose proof (reachable_wf _ Hreach) as Hwf.
  exists (first_manager st), (first_state st).
  split; [now apply getInstance_first|]. split; [reflexivity|].
  intros st2 Hsteps.
  destruct (steps_sound _ _ (wf_first_state _ Hwf Hnone) Hsteps)
    as [_ (_ & _ & Hk)].
  destruct (Hk _ eq_refl) as (mgr2 & Hi2 & Hbase & _).
  unfold getLogDirectory, bind.
  rewrite (getInstance_again _ _ Hi2). cbn [ret]. now rewrite Hbase.
Qed.

Lemma log_directory_chosen_once_witness :
  let st := process_start quiet_world in
  (reachable st /\ instance st = None) /\
  exists mgr st1,
    getInstance st = Some (mgr, st1) /\
    base_log_dir_ mgr =
      match getenv (world st) "LOG_DIR" with
      | Some log_dir_env => log_dir_env
      | None =>
          match getenv (world st) "ROS_WORKSPACE" with
          | Some workspace => workspace +:+ "/logs/current"
          | None => "/tmp/two_stage_int_logs"
          end
      end /\
    forall st2,
      steps st1 st2 ->
      getLogDirectory st2 = Some (base_log_dir_ mgr, st2).
Proof.
  intros st.
  assert (Hreach : reachable st) by (exists quiet_world; constructor).
  split; [split; [exact Hreach | reflexivity]|].
  exact (log_directory_chosen_once st Hreach eq_refl).
Defined.

(** ** The scenario of the specification *)

(** [writeLog("Planner", WARN, "planner.cpp", 42, "value out of range")] in
    a fresh process with no environment variable set: the same record, but
    for the timestamp, in [Planner.log] and in [ALL_LOGS_SUMMARY.log] under
    the fallback directory. *)
Example planner_scenario :
  let st := after (writeLog "Planner" WARN "planner.cpp" 42
                     "value out of range") (process_start quiet_world) in
  content (world st) "/tmp/two_stage_int_logs/Planner.log"
  = "[2023-12-07 14:30:25.123] [WARN] [Planner] planner.cpp:42 - value out of range"
    +:+ newline /\
  content (world st) "/tmp/two_stage_int_logs/ALL_LOGS_SUMMARY.log"
  = "[2023-12-07 14:30:25.124] [WARN] [Planner] planner.cpp:42 - value out of range"
    +:+ newline.
Proof. split; vm_compute; reflexivity. Qed.

(** * Further properties *)

(** ** getFileName *)

Section BasenameAlgebra.

Lemma getFileName_without_separator s :
  has_separator s = false -> getFileName s = s.
Proof.
  intros H. unfold getFileName.
  now rewrite (proj2 (no_separator_found s) H).
Qed.

Lemma getFileName_has_no_separator path :
  has_separator (getFileName path) = false.
Proof.
  unfold getFileName.
  destruct (find_last_of path separators) as [pos|] eqn:Hpos.
  - rewrite Nat.add_1_r.
    now destruct (last_separator_found _ _ Hpos) as (_ & _ & _ & _ & H).
  - now apply no_separator_found.
Qed.

Lemma find_last_of_join dir c name :
  char_in c separators = true ->
  has_separator name = false ->
  find_last_of (dir +:+ String c name) separators = Some (String.length dir).
Proof.
  intros Hc Hname. induction dir as [|a dir IH].
  - change (find_last_of (String c name) separators = Some 0%nat).
    cbn [find_last_of].
    now rewrite (proj2 (no_separator_found name) Hname), Hc.
  - change (find_last_of (String a (dir +:+ String c name)) separators
            = Some (S (String.length dir))).
    cbn [find_last_of]. now rewrite IH.
Qed.

Lemma substr_join dir c name :
  substr (dir +:+ String c name) (S (String.length dir)) = name.
Proof.
  induction dir as [|a dir IH].
  - change (substr name 0 = name). now destruct name.
  - exact IH.
Qed.

End BasenameAlgebra.

(** X1.  [getFileName] is idempotent: a basename holds no separator, so
    taking the basename of a basename changes nothing. *)
Theorem getFileName_idempotent (path : string) :
  has_separator (getFileName path) = false /\
  getFileName (getFileName path) = getFileName path.
Proof.
  split; [apply getFileName_has_no_separator|].
  apply getFileName_without_separator, getFileName_has_no_separator.
Qed.

(** X2.  The basename of a directory, a separator (['/'] or ['\']) and a
    name that holds no separator is that name, whatever the directory; in
    particular a path that ends with a separator has the empty basename. *)
Theorem getFileName_of_join (dir : string) (c : ascii) (name : string) :
  char_in c separators = true ->
  has_separator name = false ->
  getFileName (dir +:+ String c name) = name /\
  getFileName (dir +:+ String c "") = "".
Proof.
  intros Hc Hname. unfold getFileName.
  rewrite (find_last_of_join dir c name Hc Hname).
  rewrite (find_last_of_join dir c "" Hc eq_refl).
  rewrite !Nat.add_1_r. split; apply substr_join.
Qed.

Lemma getFileName_of_join_witness :
  (char_in "/" separators = true /\ has_separator "planner.cpp" = false) /\
  getFileName ("/home/u/src" +:+ String "/" "planner.cpp") = "planner.cpp" /\
  getFileName ("/home/u/src" +:+ String "/" "") = "".
Proof.
  split; [split; reflexivity|].
  exact (getFileName_of_join "/home/u/src" "/" "planner.cpp" eq_refl eq_refl).
Defined.

(** ** The macros *)

(** X3.  [LOG] and [LOG_STREAM] given the name of a level call [writeLog]
    at that level with the formatted message.  Given any other token (the
    comparison is case sensitive) they return without touching the process
    or the world: no manager is constructed, no file is opened. *)
Theorem macros_dispatch_on_level_name (module file : string) (line : Z)
    (text : string) :
  (forall level,
      LOG module (logLevelToString level) file line text
      = writeLog module level file line
          (formatLogMessage module file line text)) /\
  (forall level,
      LOG_STREAM module (logLevelToString level) file line text
      = writeLog module level file line text) /\
  (forall token st,
      token ∉ ["DEBUG"; "INFO"; "WARN"; "ERROR"] ->
      LOG module token file line text st = Some (tt, st) /\
      LOG_STREAM module token file line text st = Some (tt, st)).
Proof.
  split; [intros []; reflexivity|].
  split; [intros []; reflexivity|].
  intros token st Hnot.
  assert (Hd : String.eqb token "DEBUG" = false)
    by (apply String.eqb_neq; set_solver).
  assert (Hi : String.eqb token "INFO" = false)
    by (apply String.eqb_neq; set_solver).
  assert (Hw : String.eqb token "WARN" = false)
    by (apply String.eqb_neq; set_solver).
  assert (He : String.eqb token "ERROR" = false)
    by (apply String.eqb_neq; set_solver).
  unfold LOG, LOG_STREAM, dispatch_on_level.
  now rewrite Hd, Hi, Hw, He.
Qed.

Lemma macros_dispatch_on_level_name_witness :
  ("Info" ∉ ["DEBUG"; "INFO"; "WARN"; "ERROR"]) /\
  LOG "Planner" "Info" "planner.cpp" 42 "ready" (process_start quiet_world)
  = Some (tt, process_start quiet_world).
Proof.
  assert (H : "Info" ∉ ["DEBUG"; "INFO"; "WARN"; "ERROR"]).
  { intros Hin. repeat (apply elem_of_cons in Hin as [Hin|Hin];
      [discriminate Hin|]). now apply elem_of_nil in Hin. }
  split; [exact H|].
  exact (proj1 (proj2 (proj2 (macros_dispatch_on_level_name
    "Planner" "planner.cpp" 42 "ready")) "Info" (process_start quiet_world) H)).
Defined.

Section Buffer.

Lemma length_first_chars n s : (String.length (first_chars n s) <= n)%nat.
Proof.
  revert s. induction n as [|n IH]; intros [|c s]; cbn; try lia.
  specialize (IH s). lia.
Qed.

Lemma first_chars_is_prefix n s : exists rest, s = first_chars n s +:+ rest.
Proof.
  revert s. induction n as [|n IH]; intros s.
  - exists s. now destruct s.
  - destruct s as [|c s]; [now exists ""|].
    destruct (IH s) as [rest E]. exists rest. cbn [first_chars].
    change (String c s = String c (first_chars n s +:+ rest)). now rewrite <- E.
Qed.

Lemma first_chars_all n s : (String.length s <= n)%nat -> first_chars n s = s.
Proof.
  revert s. induction n as [|n IH]; intros [|c s]; cbn; try reflexivity; try lia.
  intros H. rewrite IH; [reflexivity | lia].
Qed.

Lemma length_c_string s : (String.length (c_string s) <= String.length s)%nat.
Proof.
  induction s as [|c s IH]; cbn; [lia|].
  destruct (Ascii.eqb c zero); cbn; lia.
Qed.

Lemma c_string_is_prefix s : exists rest, s = c_string s +:+ rest.
Proof.
  induction s as [|c s [rest E]]; [now exists ""|]. cbn [c_string].
  destruct (Ascii.eqb c zero); [now exists (String c s)|].
  exists rest. change (String c s = String c (c_string s +:+ rest)).
  now rewrite <- E.
Qed.

Lemma c_string_all s : char_in zero s = false -> c_string s = s.
Proof.
  induction s as [|c s IH]; [reflexivity|]. cbn [char_in c_string].
  intros H. apply orb_false_elim in H as [Hc Hs].
  rewrite Ascii.eqb_sym, Hc. now rewrite IH.
Qed.

Lemma append_assoc s t u : (s +:+ t) +:+ u = s +:+ (t +:+ u).
Proof.
  induction s as [|c s IH]; [reflexivity|].
  change (String c ((s +:+ t) +:+ u) = String c (s +:+ (t +:+ u))).
  now rewrite IH.
Qed.

End Buffer.

(** X4.  The message [formatLogMessage] builds from format arguments is a
    prefix of the expansion of the format, at most 1023 characters long; it
    is the whole expansion when that has fewer than 1024 characters and no
    NUL among them.  A longer expansion is cut, without any report. *)
Theorem formatLogMessage_fits_the_buffer (module file : string) (line : Z)
    (expansion : string) :
  (String.length (formatLogMessage module file line expansion) <= 1023)%nat /\
  (exists rest,
      expansion = formatLogMessage module file line expansion +:+ rest) /\
  ((String.length expansion < 1024)%nat ->
   char_in zero expansion = false ->
   formatLogMessage module file line expansion = expansion).
Proof.
  unfold formatLogMessage, snprintf, buffer_size.
  change (1024 - 1)%nat with 1023%nat.
  split; [|split].
  - pose proof (length_c_string (first_chars 1023 expansion)).
    pose proof (length_first_chars 1023 expansion). lia.
  - destruct (first_chars_is_prefix 1023 expansion) as [r1 E1].
    destruct (c_string_is_prefix (first_chars 1023 expansion)) as [r2 E2].
    exists (r2 +:+ r1). rewrite <- append_assoc, <- E2. exact E1.
  - intros Hlen Hnul. rewrite first_chars_all by lia. now apply c_string_all.
Qed.

Lemma formatLogMessage_fits_the_buffer_witness :
  ((String.length "value: 42" < 1024)%nat /\
   char_in zero "value: 42" = false) /\
  formatLogMessage "Planner" "planner.cpp" 7 "value: 42" = "value: 42".
Proof.
  split; [split; [cbn; lia | reflexivity]|].
  apply (proj2 (proj2 (formatLogMessage_fits_the_buffer
                         "Planner" "planner.cpp" 7 "value: 42")));
    [cbn; lia | reflexivity].
Defined.

(** ** FileLogger *)

(** X5.  Constructing a [FileLogger] returns a new object with the given
    path and minimum level, open exactly when the file system let the path
    be opened.  No file loses or gains a byte (the open is in append mode).
    After a successful open the file exists and nothing is reported; after a
    failed one the file system is as it was and exactly one line naming the
    path has gone to [std::cerr]. *)
Theorem FileLogger_new_opens_for_append (file_path : string)
    (min_level : LogLevel) (st : St) :
  exists st',
    FileLogger_new file_path min_level st = Some (constructed st, st') /\
    heap st' !! constructed st
    = Some {| log_file_path_ := file_path;
              log_file_ := can_open (world st) file_path;
              min_level_ := min_level |} /\
    (forall q, content (world st') q = content (world st) q) /\
    (if can_open (world st) file_path then
       files (world st') !! file_path = Some (content (world st) file_path) /\
       events (world st') = EvOpen file_path true :: events (world st)
     else
       files (world st') = files (world st) /\
       events (world st')
       = EvCerr ("Error: Cannot open log file: " +:+ file_path)
         :: EvOpen file_path false :: events (world st)).
Proof.
  eexists. split; [apply FileLogger_new_eq|]. cbn [heap world].
  split; [apply lookup_insert_eq|].
  split; [intros q; apply content_world_after_new|].
  unfold world_after_new, open_append. cbn [snd].
  destruct (can_open (world st) file_path) eqn:Hopen.
  - cbn [files set_files events emit]. split; [apply lookup_insert_eq|].
    reflexivity.
  - cbn [files events emit]. split; reflexivity.
Qed.

(** X6.  [FileLogger::log] on a live logger returns.  It leaves the whole
    state as it was (the clock is not even read) exactly when the level is
    below the logger's minimum or the logger is not open.  Otherwise it
    reads the clock once and changes nothing but the logger's file: the
    objects, the registry and what went to the standard streams stay. *)
Theorem log_drops_or_writes (st : St) (this : ptr) (fl : FileLogger)
    (level : LogLevel) (module file : string) (line : Z) (message : string) :
  heap st !! this = Some fl ->
  exists st',
    log this level module file line message st = Some (tt, st') /\
    (st' = st <->
     level_lt level (min_level_ fl) = true \/ log_file_ fl = false) /\
    (st' <> st ->
     clock_reads (world st') = S (clock_reads (world st)) /\
     events (world st') = events (world st) /\
     heap st' = heap st /\ instance st' = instance st /\
     constructed st' = constructed st).
Proof.
  intros Hfl. eexists. split; [exact (log_eq _ _ _ _ _ _ _ _ Hfl)|].
  unfold logged.
  destruct (level_lt level (min_level_ fl)) eqn:Hlevel; cbn [orb].
  { split; [split; auto | congruence]. }
  destruct (log_file_ fl) eqn:Hopen; cbn [negb].
  - split; [|intros _; repeat split].
    split; [|intros [H|H]; discriminate H].
    intros E. apply (f_equal (fun s => clock_reads (world s))) in E.
    cbn in E. lia.
  - split; [split; auto | congruence].
Qed.

Lemma log_drops_or_writes_witness :
  let st := after (getLogger "Planner" WARN) (process_start quiet_world) in
  let fl := {| log_file_path_ := "/tmp/two_stage_int_logs/Planner.log";
               log_file_ := true; min_level_ := WARN |} in
  heap st !! 1%nat = Some fl /\
  exists st',
    log 1%nat INFO "Planner" "planner.cpp" 7 "tick" st = Some (tt, st') /\
    (st' = st <->
     level_lt INFO (min_level_ fl) = true \/ log_file_ fl = false) /\
    (st' <> st ->
     clock_reads (world st') = S (clock_reads (world st)) /\
     events (world st') = events (world st) /\
     heap st' = heap st /\ instance st' = instance st /\
     constructed st' = constructed st).
Proof.
  intros st fl.
  assert (Hfl : heap st !! 1%nat = Some fl) by (vm_compute; reflexivity).
  split; [exact Hfl|].
  exact (log_drops_or_writes st 1%nat fl INFO "Planner" "planner.cpp" 7 "tick"
           Hfl).
Defined.

(** ** The registry and the dispatch, further *)





(** X8.  Two different module names never share a logger: the loggers
    registered for them are different objects on different files. *)
Theorem modules_have_their_own_logger (st : St) (m m' : string) (p p' : ptr) :
  reachable st ->
  registered st m = Some p ->
  registered st m' = Some p' ->
  m <> m' ->
  p <> p' /\
  exists fl fl',
    heap st !! p = Some fl /\ heap st !! p' = Some fl' /\
    log_file_path_ fl <> log_file_path_ fl'.
Proof.
  intros Hreach Hp Hp' Hne. pose proof (reachable_wf _ Hreach) as [_ Hwf].
  unfold registered in Hp, Hp'.
  destruct (instance st) as [mgr|] eqn:Hi; [|discriminate].
  destruct (Hwf _ eq_refl) as [_ Hreg].
  destruct (Hreg _ _ Hp) as (fl & Hfl & _ & Hpath).
  destruct (Hreg _ _ Hp') as (fl' & Hfl' & _ & Hpath').
  assert (Hpaths : log_file_path_ fl <> log_file_path_ fl').
  { rewrite Hpath, Hpath'. intros E. now apply module_log_path_inj in E. }
  split; [|now exists fl, fl'].
  intros ->. congruence.
Qed.

Lemma modules_have_their_own_logger_witness :
  let st := after (getLogger "Controller" DEBUG)
              (after (getLogger "Planner" DEBUG) (process_start quiet_world)) in
  (reachable st /\ registered st "Planner" = Some 1%nat /\
   registered st "Controller" = Some 2%nat /\ "Planner" <> "Controller") /\
  1%nat <> 2%nat /\
  exists fl fl',
    heap st !! 1%nat = Some fl /\ heap st !! 2%nat = Some fl' /\
    log_file_path_ fl <> log_file_path_ fl'.
Proof.
  intros st.
  assert (Hreach : reachable st).
  { do 2 apply reachable_after_getLogger. exists quiet_world. constructor. }
  assert (H1 : registered st "Planner" = Some 1%nat) by (vm_compute; reflexivity).
  assert (H2 : registered st "Controller" = Some 2%nat)
    by (vm_compute; reflexivity).
  assert (Hne : "Planner" <> "Controller") by discriminate.
  split; [split; [exact Hreach | split; [exact H1 | split; [exact H2 | exact Hne]]]|].
  exact (modules_have_their_own_logger st "Planner" "Controller" 1%nat 2%nat
           Hreach H1 H2 Hne).
Defined.



(** X13.  Once a module is registered, a [writeLog] for it opens no file,
    runs no command, reports nothing and constructs nothing: the registry,
    the objects and the record of what the process did to its surroundings
    are as before, and no file but the module's and the summary's can have
    changed. *)
Theorem writeLog_steady_state (st : St) (module : string) (logger : ptr)
    (level : LogLevel) (file : string) (line : Z) (message : string) :
  reachable st ->
  registered st module = Some logger ->
  exists st',
    writeLog module level file line message st = Some (tt, st') /\
    instance st' = instance st /\ heap st' = heap st /\
    constructed st' = constructed st /\
    events (world st') = events (world st) /\
    forall q,
      q <> module_log_path (log_dir st) module ->
      q <> module_log_path (log_dir st) summary_file_name ->
      content (world st') q = content (world st) q.
Proof.
  intros Hreach Hreg. pose proof (reachable_wf _ Hreach) as Hwf.
  destruct (writeLog_shape st module level file line message Hwf)
    as (r & st1 & fs & Hg & Hwf1 & _ & _ & Hsum & Heq).
  assert (st1 = st) as ->.
  { unfold registered in Hreg.
    destruct (instance st) as [mgr|] eqn:Hi; [|discriminate].
    rewrite (getLogger_registered _ _ _ DEBUG _ Hi Hreg) in Hg.
    now injection Hg. }
  eexists. split; [exact Heq|].
  assert (exists fm, module_logger st module = Some fm) as [fm Hfm].
  { unfold module_logger. rewrite Hreg. unfold registered in Hreg.
    destruct (instance st) as [mgr|] eqn:Hi; [|discriminate].
    destruct (proj2 (proj2 Hwf _ Hi) _ _ Hreg) as (fm & Hfm & _). eauto. }
  rewrite Hfm. cbn [logged_if].
  destruct (module_logger_wf _ _ _ Hwf Hfm) as [_ Hpath_m].
  destruct (summary_logger_wf _ _ Hwf Hsum) as [_ Hpath_s].
  rewrite !instance_logged, !heap_logged, !constructed_logged, !events_logged.
  repeat (split; [reflexivity|]).
  intros q Hqm Hqs.
  rewrite !content_logged_elsewhere by congruence. reflexivity.
Qed.

Lemma writeLog_steady_state_witness :
  let st := after (getLogger "Planner" DEBUG) (process_start quiet_world) in
  (reachable st /\ registered st "Planner" = Some 1%nat) /\
  exists st',
    writeLog "Planner" INFO "planner.cpp" 7 "tick" st = Some (tt, st') /\
    instance st' = instance st /\ heap st' = heap st /\
    constructed st' = constructed st /\
    events (world st') = events (world st) /\
    forall q,
      q <> module_log_path (log_dir st) "Planner" ->
      q <> module_log_path (log_dir st) summary_file_name ->
      content (world st') q = content (world st) q.
Proof.
  intros st.
  assert (Hreach : reachable st).
  { apply reachable_after_getLogger. exists quiet_world. constructor. }
  assert (Hreg : registered st "Planner" = Some 1%nat)
    by (vm_compute; reflexivity).
  split; [split; [exact Hreach | exact Hreg]|].
  exact (writeLog_steady_state st "Planner" 1%nat INFO "planner.cpp" 7 "tick"
           Hreach Hreg).
Defined.

(** X14.  [getSummaryLogger] never returns null.  The logger it returns is
    on [ALL_LOGS_SUMMARY.log] in the log directory and accepts every level,
    and it is the same object, unchanged, for the rest of the process,
    whatever is called and however the surroundings change. *)
Theorem getSummaryLogger_is_one_object (st : St) :
  reachable st ->
  exists ps fs st1,
    getSummaryLogger st = Some (Some ps, st1) /\
    heap st1 !! ps = Some fs /\
    log_file_path_ fs = module_log_path (log_dir st) summary_file_name /\
    (forall level, level_lt level (min_level_ fs) = false) /\
    forall st2,
      steps st1 st2 ->
      getSummaryLogger st2 = Some (Some ps, st2) /\
      heap st2 !! ps = Some fs.
Proof.
  intros Hreach. pose proof (reachable_wf _ Hreach) as Hwf.
  destruct (getInstance_sound st Hwf) as (mgr & st1 & Hg & Hi & Hwf1 & _).
  destruct (getInstance_world _ _ _ Hg) as (_ & _ & Hbase & _).
  destruct (proj2 Hwf1 _ Hi) as [(ps & fs & Hps & Hfs & Hpath & Hmin) _].
  exists ps, fs, st1.
  split; [unfold getSummaryLogger, bind; now rewrite Hg, Hps|].
  split; [exact Hfs|]. split; [now rewrite <- Hbase|].
  split; [intros level; rewrite Hmin; apply level_not_below_DEBUG|].
  intros st2 Hsteps.
  destruct (steps_sound _ _ Hwf1 Hsteps) as [_ (Hheap & _ & Hk)].
  destruct (Hk _ Hi) as (mgr2 & Hi2 & _ & Hs & _).
  split; [|now apply Hheap].
  rewrite (getSummaryLogger_eq _ _ Hi2). now rewrite Hs, Hps.
Qed.

Lemma getSummaryLogger_is_one_object_witness :
  reachable (process_start quiet_world) /\
  exists ps fs st1,
    getSummaryLogger (process_start quiet_world) = Some (Some ps, st1) /\
    heap st1 !! ps = Some fs /\
    log_file_path_ fs
    = module_log_path (log_dir (process_start quiet_world)) summary_file_name /\
    (forall level, level_lt level (min_level_ fs) = false) /\
    forall st2,
      steps st1 st2 ->
      getSummaryLogger st2 = Some (Some ps, st2) /\
      heap st2 !! ps = Some fs.
Proof.
  assert (Hreach : reachable (process_start quiet_world))
    by (exists quiet_world; constructor).
  split; [exact Hreach|].
  exact (getSummaryLogger_is_one_object (process_start quiet_world) Hreach).
Defined.

(** ** exportLogs *)

Section Exporting.

Lemma events_print_lines lines w :
  events (print_lines lines w) = rev (map EvCout lines) ++ events w.
Proof.
  revert w. induction lines as [|l lines IH]; intros w; [reflexivity|].
  cbn [print_lines fold_left map rev]. fold (print_lines lines (emit (EvCout l) w)).
  rewrite IH. cbn [events emit]. now rewrite <- app_assoc.
Qed.

Lemma files_print_lines lines w : files (print_lines lines w) = files w.
Proof.
  revert w. induction lines as [|l lines IH]; intros w; [reflexivity|].
  cbn [print_lines fold_left]. fold (print_lines lines (emit (EvCout l) w)).
  now rewrite IH.
Qed.

Lemma report_paths_prints base l st :
  (forall m p, (m, p) ∈ l ->
     exists fl, heap st !! p = Some fl /\
                log_file_path_ fl = module_log_path base m) ->
  report_paths l st
  = Some (tt, set_world
                (print_lines
                   (map (fun entry => "  - " +:+ module_log_path base (fst entry)) l)
                   (world st))
                st).
Proof.
  revert st. induction l as [|[m p] l IH]; intros st Hlive.
  - cbn. now rewrite set_world_same.
  - destruct (Hlive m p) as (fl & Hfl & Hpath); [left|].
    cbn [report_paths]. unfold bind at 1.
    rewrite (getFilePath_live _ _ _ Hfl).
    unfold bind at 1. cbn [update_world].
    rewrite IH; [rewrite Hpath; reflexivity|].
    intros m' p' Hin. apply (Hlive m' p'). now right.
Qed.

Lemma exportLogs_eq st mgr st1 :
  wf st -> getInstance st = Some (mgr, st1) ->
  exportLogs st
  = Some (tt, set_world (print_lines (export_lines mgr) (world st1)) st1).
Proof.
  intros Hwf Hg.
  destruct (getInstance_sound st Hwf) as (mgr' & st1' & Hg' & Hi & Hwf1 & _).
  rewrite Hg in Hg'. injection Hg' as <- <-.
  destruct (proj2 Hwf1 _ Hi) as [(ps & fs & Hps & Hfs & Hpath & _) Hreg].
  unfold exportLogs. unfold bind at 1. rewrite Hg.
  unfold bind at 1. cbn [update_world].
  unfold bind at 1. rewrite Hps. unfold bind at 1.
  rewrite (getFilePath_live ps fs); [|exact Hfs].
  cbn [update_world set_world world].
  rewrite (report_paths_prints (base_log_dir_ mgr)).
  - rewrite Hpath. reflexivity.
  - intros m p Hin. cbn [heap].
    unfold in_key_order in Hin. rewrite merge_sort_Permutation in Hin.
    apply elem_of_map_to_list in Hin.
    destruct (Hreg _ _ Hin) as (fl & Hfl & _ & Hp). eauto.
Qed.

Lemma key_le_total : Total key_le.
Proof. intros a b. apply String.leb_total. Qed.

End Exporting.

(** X11.  [exportLogs], called while the manager is alive, returns in
    every state, constructing the registry first if the process never
    logged.  It prints the directory, then the path of the summary file,
    then one path per registered module, in ascending order of the module
    names, and does nothing else: files, objects and registry stay as they
    are.  Called again it prints the same lines again. *)
Theorem exportLogs_only_reports (st : St) :
  reachable st ->
  exists mgr st1 st',
    getInstance st = Some (mgr, st1) /\
    exportLogs st = Some (tt, st') /\
    events (world st')
    = rev (map EvCout (export_lines mgr)) ++ events (world st1) /\
    Sorted key_le (in_key_order (loggers_ mgr)) /\
    in_key_order (loggers_ mgr) ≡ₚ map_to_list (loggers_ mgr) /\
    files (world st') = files (world st1) /\
    heap st' = heap st1 /\ instance st' = Some mgr /\
    constructed st' = constructed st1 /\
    exists st'',
      exportLogs st' = Some (tt, st'') /\
      events (world st'')
      = rev (map EvCout (export_lines mgr)) ++ events (world st').
Proof.
  intros Hreach. pose proof (reachable_wf _ Hreach) as Hwf.
  destruct (getInstance_sound st Hwf) as (mgr & st1 & Hg & Hi & Hwf1 & _).
  pose proof (exportLogs_eq _ _ _ Hwf Hg) as He.
  eexists mgr, st1, _. split; [exact Hg|]. split; [exact He|].
  cbn [set_world world heap instance constructed].
  split; [apply events_print_lines|].
  split; [apply (@Sorted_merge_sort _ key_le _ key_le_total)|].
  split; [apply merge_sort_Permutation|].
  split; [apply files_print_lines|].
  split; [reflexivity|]. split; [exact Hi|]. split; [reflexivity|].
  eexists. split.
  - apply (exportLogs_eq _ mgr); [exact Hwf1|].
    apply getInstance_again. exact Hi.
  - cbn [set_world world]. apply events_print_lines.
Qed.

Lemma exportLogs_only_reports_witness :
  let st := after (getLogger "Planner" DEBUG)
              (after (getLogger "Controller" DEBUG)
                 (process_start quiet_world)) in
  reachable st /\
  exists mgr st1 st',
    getInstance st = Some (mgr, st1) /\
    exportLogs st = Some (tt, st') /\
    events (world st')
    = rev (map EvCout (export_lines mgr)) ++ events (world st1) /\
    Sorted key_le (in_key_order (loggers_ mgr)) /\
    in_key_order (loggers_ mgr) ≡ₚ map_to_list (loggers_ mgr) /\
    files (world st') = files (world st1) /\
    heap st' = heap st1 /\ instance st' = Some mgr /\
    constructed st' = constructed st1 /\
    exists st'',
      exportLogs st' = Some (tt, st'') /\
      events (world st'')
      = rev (map EvCout (export_lines mgr)) ++ events (world st').
Proof.
  intros st.
  assert (Hreach : reachable st).
  { do 2 apply reachable_after_getLogger. exists quiet_world. constructor. }
  split; [exact Hreach|].
  exact (exportLogs_only_reports st Hreach).
Defined.

(** What [exportLogs] prints after [Planner] and [Controller] have been
    used, in that order of first use. *)
Example exportLogs_sample :
  let st := after exportLogs
              (after (getLogger "Controller" DEBUG)
                 (after (getLogger "Planner" DEBUG)
                    (process_start quiet_world))) in
  firstn 4 (events (world st))
  = [EvCout "  - /tmp/two_stage_int_logs/Planner.log";
     EvCout "  - /tmp/two_stage_int_logs/Controller.log";
     EvCout "  * 汇总日志: /tmp/two_stage_int_logs/ALL_LOGS_SUMMARY.log";
     EvCout "日志已导出到: /tmp/two_stage_int_logs"].
Proof. vm_compute. reflexivity. Qed.

(** ** Ownership *)

Section Ownership.

Lemma no_stray_first_state st :
  no_stray_object st -> instance st = None -> no_stray_object (first_state st).
Proof.
  intros Hown Hnone p fl. cbn [first_state heap instance].
  rewrite lookup_insert. case_decide as Hp.
  - intros _. exists (first_manager st). split; [reflexivity|]. left.
    cbn [first_manager summary_logger_]. now rewrite Hp.
  - intros Hfl. destruct (Hown _ _ Hfl) as (mgr & Hi & _). congruence.
Qed.

Lemma no_stray_getInstance st mgr st1 :
  no_stray_object st -> getInstance st = Some (mgr, st1) -> no_stray_object st1.
Proof.
  intros Hown Hg.
  destruct (getInstance_total st) as (mgr' & st1' & Hg' & _ & Hsome & Hnone).
  rewrite Hg in Hg'. injection Hg' as <- <-.
  destruct (instance st) as [m0|] eqn:Hi.
  - now destruct (Hsome _ eq_refl) as [_ ->].
  - destruct (Hnone eq_refl) as [_ ->]. now apply no_stray_first_state.
Qed.

Lemma no_stray_created_state m lvl mgr st :
  no_stray_object st -> instance st = Some mgr -> loggers_ mgr !! m = None ->
  no_stray_object (created_state m lvl mgr st).
Proof.
  intros Hown Hi Hm p fl. cbn [created_state heap instance].
  rewrite lookup_insert. case_decide as Hp.
  - intros _. eexists. split; [reflexivity|]. right. exists m.
    cbn [loggers_]. rewrite Hp. apply lookup_insert_eq.
  - intros Hfl. destruct (Hown _ _ Hfl) as (mgr' & Hi' & Hheld).
    rewrite Hi in Hi'. injection Hi' as <-.
    eexists. split; [reflexivity|]. cbn [summary_logger_ loggers_].
    destruct Hheld as [Hs | [m0 Hm0]]; [now left|].
    right. exists m0. rewrite lookup_insert_ne; [exact Hm0 | congruence].
Qed.

Lemma no_stray_refused_state m mgr st :
  no_stray_object st -> instance st = Some mgr ->
  no_stray_object (refused_state m mgr st).
Proof.
  intros Hown Hi p fl Hfl. cbn [refused_state heap] in Hfl.
  destruct (Hown _ _ Hfl) as (mgr' & Hi' & Hheld).
  rewrite Hi in Hi'. injection Hi' as <-. now exists mgr.
Qed.

Lemma no_stray_logged fl level module file line message st :
  no_stray_object st ->
  no_stray_object (logged fl level module file line message st).
Proof. unfold logged. now destruct (_ || _). Qed.

Lemma no_stray_getLogger st m lvl r st' :
  wf st -> no_stray_object st -> getLogger m lvl st = Some (r, st') ->
  no_stray_object st'.
Proof.
  intros Hwf Hown Hg.
  destruct (getInstance_sound st Hwf) as (mgr & st1 & Hg1 & Hi & Hwf1 & _).
  pose proof (no_stray_getInstance _ _ _ Hown Hg1) as Hown1.
  rewrite (getLogger_from_instance _ _ _ m lvl Hg1) in Hg.
  destruct (getLogger_cases st1 mgr m lvl Hwf1 Hi)
    as [(p & Hm & E) | [(Hm & _ & E) | (Hm & _ & E)]];
    rewrite E in Hg; injection Hg as <- <-.
  - exact Hown1.
  - now apply no_stray_created_state.
  - now apply no_stray_refused_state.
Qed.

Lemma no_stray_run_call st c st' :
  wf st -> no_stray_object st -> run_call c st = Some (tt, st') ->
  no_stray_object st'.
Proof.
  intros Hwf Hown.
  destruct c as [m lvl | m lvl file line msg | |]; cbn [run_call].
  - unfold bind. destruct (getLogger m lvl st) as [[r s]|] eqn:Hg;
      [|discriminate].
    intros [= <-]. exact (no_stray_getLogger _ _ _ _ _ Hwf Hown Hg).
  - destruct (writeLog_shape st m lvl file line msg Hwf)
      as (r & st1 & fs & Hg & _ & _ & _ & _ & ->).
    intros [= <-]. apply no_stray_logged.
    pose proof (no_stray_getLogger _ _ _ _ _ Hwf Hown Hg) as Hown1.
    destruct (module_logger st1 m); [now apply no_stray_logged | exact Hown1].
  - destruct (getInstance_sound st Hwf) as (mgr & st1 & Hg & _).
    rewrite (exportLogs_eq _ _ _ Hwf Hg). intros [= <-].
    exact (no_stray_getInstance _ _ _ Hown Hg).
  - unfold getLogDirectory, bind.
    destruct (getInstance st) as [[mgr st1]|] eqn:Hg; [|discriminate].
    intros [= <-]. exact (no_stray_getInstance _ _ _ Hown Hg).
Qed.

Lemma no_stray_steps st st' :
  wf st -> no_stray_object st -> steps st st' -> no_stray_object st'.
Proof.
  intros Hwf Hown Hsteps. induction Hsteps as [s | s1 s2 s3 H12 IH Hstep].
  - exact Hown.
  - specialize (IH Hwf Hown).
    destruct (steps_sound _ _ Hwf H12) as [Hwf2 _].
    destruct Hstep as [s w | s c s' Hrun]; [exact IH|].
    exact (no_stray_run_call _ _ _ Hwf2 IH Hrun).
Qed.

End Ownership.

(** X9.  The process keeps no [FileLogger] the manager does not hold: in
    every state it can be in, each live object is the summary logger or a
    logger registered for some module.  So the object a failed [getLogger]
    constructed is gone when the call returns, and there is no [FileLogger]
    at all before the registry exists. *)
Theorem every_logger_is_held_by_the_manager (st : St) :
  reachable st ->
  (forall p fl,
      heap st !! p = Some fl ->
      exists mgr,
        instance st = Some mgr /\
        (summary_logger_ mgr = Some p \/
         exists m, loggers_ mgr !! m = Some p)) /\
  (instance st = None -> heap st = ∅).
Proof.
  intros [w Hsteps].
  assert (Hown : no_stray_object st).
  { apply (no_stray_steps (process_start w)); [apply wf_start | | exact Hsteps].
    intros p fl Hfl. cbn [process_start heap] in Hfl.
    now rewrite lookup_empty in Hfl. }
  split; [exact Hown|].
  intros Hnone. apply map_eq. intros p. rewrite lookup_empty.
  destruct (heap st !! p) as [fl|] eqn:Hfl; [|reflexivity].
  destruct (Hown _ _ Hfl) as (mgr & Hi & _). congruence.
Qed.

Lemma every_logger_is_held_by_the_manager_witness :
  let st := after (getLogger "Planner" DEBUG)
              (process_start (world_where only_summary_opens)) in
  reachable st /\
  (forall p fl,
      heap st !! p = Some fl ->
      exists mgr,
        instance st = Some mgr /\
        (summary_logger_ mgr = Some p \/
         exists m, loggers_ mgr !! m = Some p)) /\
  (instance st = None -> heap st = ∅).
Proof.
  intros st.
  assert (Hreach : reachable st).
  { apply reachable_after_getLogger.
    exists (world_where only_summary_opens). constructor. }
  split; [exact Hreach|].
  exact (every_logger_is_held_by_the_manager st Hreach).
Defined.

(** ** Sequences of records *)

Section Accumulation.

Lemma append_empty_r s : s +:+ "" = s.
Proof.
  induction s as [|c s IH]; [reflexivity|].
  change (String c (s +:+ "") = String c s). now rewrite IH.
Qed.

Lemma keeps_summary_logger st st' fs :
  keeps st st' -> summary_logger st = Some fs -> summary_logger st' = Some fs.
Proof.
  intros (Hheap & _ & Hk). unfold summary_logger.
  destruct (instance st) as [mgr|]; [|discriminate].
  destruct (Hk _ eq_refl) as (mgr' & -> & _ & -> & _).
  destruct (summary_logger_ mgr) as [ps|]; [|discriminate].
  apply Hheap.
Qed.

Lemma clock_logged fl level module file line message st :
  clock (world (logged fl level module file line message st))
  = clock (world st) /\
  localtime (world (logged fl level module file line message st))
  = localtime (world st) /\
  (clock_reads (world st)
   <= clock_reads (world (logged fl level module file line message st))
   <= S (clock_reads (world st)))%nat.
Proof.
  unfold logged. destruct (_ || _); cbn; repeat split; lia.
Qed.

Lemma writeLog_summary_line st fs module level file line message :
  wf st ->
  summary_logger st = Some fs -> log_file_ fs = true ->
  module <> summary_file_name ->
  exists st' k,
    writeLog module level file line message st = Some (tt, st') /\
    wf st' /\ summary_logger st' = Some fs /\
    clock (world st') = clock (world st) /\
    localtime (world st') = localtime (world st) /\
    (clock_reads (world st) <= k < clock_reads (world st'))%nat /\
    content (world st') (log_file_path_ fs) =
      content (world st) (log_file_path_ fs) +:+
      (format_record
         (format_timestamp (localtime (world st)) (clock (world st) k))
         level module file line message +:+ newline).
Proof.
  intros Hwf Hsum Hopen Hmodule.
  destruct (writeLog_shape st module level file line message Hwf)
    as (r & st1 & fs' & Hg & Hwf1 & Hk & _ & Hsum1 & Heq).
  rewrite (keeps_summary_logger _ _ _ Hk Hsum) in Hsum1.
  injection Hsum1 as <-.
  pose proof (keeps_summary_logger _ _ _ Hk Hsum) as Hsum1.
  destruct (summary_logger_wf _ _ Hwf1 Hsum1) as [Hmin Hpath].
  destruct (getLogger_clock _ _ _ _ _ Hwf Hg) as (Hclock & Hreads & Hlocal).
  set (mid := logged_if (module_logger st1 module) level module file line
                message st1) in *.
  assert (Hmid : clock (world mid) = clock (world st) /\
                 localtime (world mid) = localtime (world st) /\
                 (clock_reads (world st) <= clock_reads (world mid))%nat).
  { unfold mid. destruct (module_logger st1 module) as [fm|]; cbn [logged_if].
    - destruct (clock_logged fm level module file line message st1)
        as (-> & -> & Hr). rewrite Hclock, Hlocal. repeat split. lia.
    - rewrite Hclock, Hlocal, Hreads. repeat split. lia. }
  destruct Hmid as (Hclock_m & Hlocal_m & Hreads_m).
  exists (logged fs level module file line message mid),
         (clock_reads (world mid)).
  split; [exact Heq|].
  split; [now apply wf_logged, wf_logged_if|].
  split; [unfold mid; now rewrite summary_logger_logged, summary_logger_logged_if|].
  destruct (clock_logged fs level module file line message mid)
    as (Hc & Hl & _).
  split; [now rewrite Hc|]. split; [now rewrite Hl|].
  split.
  { split; [exact Hreads_m|]. unfold logged.
    rewrite Hmin, level_not_below_DEBUG, Hopen. cbn. lia. }
  rewrite content_logged, Hmin, level_not_below_DEBUG, Hopen.
  cbn [orb negb]. rewrite decide_True by reflexivity.
  cbn [getCurrentTimestamp fst]. rewrite Hclock_m, Hlocal_m.
  f_equal.
  assert (Hbefore :
    content (world mid) (log_file_path_ fs)
    = content (world st1) (log_file_path_ fs)).
  { unfold mid.
    destruct (module_logger st1 module) as [fm|] eqn:Hfm; [|reflexivity].
    cbn [logged_if]. apply content_logged_elsewhere.
    destruct (module_logger_wf _ _ _ Hwf1 Hfm) as [_ Hpath_m].
    rewrite Hpath, Hpath_m. intros E. apply module_log_path_inj in E.
    congruence. }
  rewrite Hbefore. exact (getLogger_content _ _ _ _ _ Hwf Hg _).
Qed.

Lemma write_entries_summary st fs es :
  wf st ->
  summary_logger st = Some fs -> log_file_ fs = true ->
  Forall (fun e => entry_module e <> summary_file_name) es ->
  exists st' readings,
    write_entries es st = Some (tt, st') /\
    length readings = length es /\
    clock (world st') = clock (world st) /\
    localtime (world st') = localtime (world st) /\
    (clock_reads (world st) <= clock_reads (world st'))%nat /\
    Forall (fun k => (clock_reads (world st) <= k < clock_reads (world st'))%nat)
      readings /\
    StronglySorted lt readings /\
    content (world st') (log_file_path_ fs) =
      content (world st) (log_file_path_ fs) +:+
      records_text
        (map (fun k => format_timestamp (localtime (world st))
                         (clock (world st) k)) readings)
        es.
Proof.
  intros Hwf Hsum Hopen Hall. revert st Hwf Hsum.
  induction Hall as [|e es He _ IH]; intros st Hwf Hsum.
  - exists st, []. cbn. rewrite append_empty_r.
    repeat split; try constructor.
  - destruct (writeLog_summary_line st fs (entry_module e) (entry_level e)
                (entry_file e) (entry_line e) (entry_message e)
                Hwf Hsum Hopen He)
      as (st1 & k & Hw & Hwf1 & Hsum1 & Hc1 & Hl1 & Hk & Hcontent1).
    destruct (IH st1 Hwf1 Hsum1)
      as (st' & ks & Hrest & Hlen & Hc & Hl & Hr & Hin & Hsorted & Hcontent).
    exists st', (k :: ks). cbn [write_entries]. unfold bind, write_entry.
    rewrite Hw. split; [exact Hrest|].
    split; [cbn; now rewrite Hlen|].
    split; [congruence|]. split; [congruence|]. split; [lia|].
    split.
    { constructor; [lia|]. eapply Forall_impl; [exact Hin|].
      cbn. intros a Ha. lia. }
    split.
    { constructor; [exact Hsorted|]. eapply Forall_impl; [exact Hin|].
      cbn. intros a Ha. lia. }
    rewrite Hcontent, Hcontent1, Hc1, Hl1. cbn [records_text map].
    now rewrite !append_assoc.
Qed.

End Accumulation.



(** ** Timestamps of the two lines *)




